(** * render: template-set compiler, layout/partial resolver and HTML coordinator

    A shallow embedding of the Go package [render] (render.go, engine.go,
    fs.go) and the properties of its specification.

    The package is a thin layer over three collaborators that are not part of
    it: the [html/template] engine, the [io/fs] file-system walk and the
    [net/http] response writer.  Each collaborator is modelled by the part of
    its contract the package relies on; the package's own functions are
    translated statement by statement. *)

From Stdlib Require Import ZArith Ascii String List Bool Lia.
From stdpp Require Import base option gmap strings list fin_maps.

Local Open Scope string_scope.
Local Open Scope list_scope.

(* ===================================================================== *)
(** ** Errors and results                                                 *)
(* ===================================================================== *)

(** Go's [error] values that can flow through the package. *)
Inductive error : Type :=
| ErrIO (msg : string)                 (* fs.ReadFile / walk failure *)
| ErrParse (msg : string)              (* template.Parse: invalid syntax *)
| ErrRel (base targ : string)          (* filepath.Rel: can't make relative *)
| ErrUndefined (name : string)         (* html/template: "name" is undefined *)
| ErrIncomplete (name : string)        (* html/template: "name" is an incomplete template *)
| ErrNoSuchTemplate (name : string)    (* html/template: no such template "name" *)
| ErrEmptyTemplate (name : string)     (* html/template: "name" is an incomplete or empty template *)
| ErrNoFunc (fname : string)           (* function "fname" not defined *)
| ErrArgs (fname : string)             (* wrong number of args for fname *)
| ErrCall (fname : string) (e : error) (* error calling fname: e *)
| ErrWrite (msg : string)              (* io.Writer.Write failure *)
| ErrUser (msg : string).              (* error value returned by user code *)

Definition quoted (s : string) : string :=
  String (ascii_of_nat 34) s +:+ String (ascii_of_nat 34) EmptyString.

(** [err.Error()] *)
Fixpoint Error (e : error) : string :=
  match e with
  | ErrIO m => m
  | ErrParse m => "template: " +:+ m
  | ErrRel b t => "Rel: can't make " +:+ t +:+ " relative to " +:+ b
  | ErrUndefined n => "html/template: " +:+ quoted n +:+ " is undefined"
  | ErrIncomplete n => "html/template: " +:+ quoted n +:+ " is an incomplete template"
  | ErrNoSuchTemplate n => "html/template: no such template " +:+ quoted n
  | ErrEmptyTemplate n =>
      "html/template: " +:+ quoted n +:+ " is an incomplete or empty template"
  | ErrNoFunc f => "function " +:+ quoted f +:+ " not defined"
  | ErrArgs f => "wrong number of args for " +:+ f
  | ErrCall f e' => "error calling " +:+ f +:+ ": " +:+ Error e'
  | ErrWrite m => m
  | ErrUser m => m
  end.

(** A Go pair [(value, error)] in which the value is meaningful only when the
    error is nil. *)
Inductive Result (A : Type) : Type :=
| Ok (a : A)
| Err (e : error).
Arguments Ok {A} a.
Arguments Err {A} e.

(* ===================================================================== *)
(** ** path/filepath and strings                                          *)
(* ===================================================================== *)

(** The target platform decides [filepath.Separator]. *)
Inductive GOOS : Type := Unix | Windows.

Definition Separator (os : GOOS) : ascii :=
  match os with Unix => "/"%char | Windows => "\"%char end.

(** [os.IsPathSeparator] *)
Definition IsPathSeparator (os : GOOS) (c : ascii) : bool :=
  match os with
  | Unix => Ascii.eqb c "/"
  | Windows => Ascii.eqb c "\" || Ascii.eqb c "/"
  end.

(** [strings.Contains(s, ".")] for the one-byte needle the package uses. *)
Fixpoint ContainsByte (s : string) (c : ascii) : bool :=
  match s with
  | EmptyString => false
  | String a s' => Ascii.eqb a c || ContainsByte s' c
  end.

(** [filepath.Ext]: the suffix beginning at the final dot in the final
    element of the path; empty if there is no dot.  The Go loop scans from
    the end and stops at the first path separator; the structural recursion
    below returns [Some r] as soon as that scan has stopped inside the suffix
    it has seen (with answer [r]), and [None] while it is still running. *)
Fixpoint ext_scan (os : GOOS) (s : string) : option string :=
  match s with
  | EmptyString => None
  | String a s' =>
      match ext_scan os s' with
      | Some r => Some r
      | None =>
          if IsPathSeparator os a then Some ""
          else if Ascii.eqb a "." then Some (String a s')
          else None
      end
  end.

Definition filepath_Ext (os : GOOS) (path : string) : string :=
  match ext_scan os path with Some r => r | None => "" end.

(** [filepath.ToSlash]: replace each separator by a slash. *)
Fixpoint replace_byte (old new : ascii) (s : string) : string :=
  match s with
  | EmptyString => EmptyString
  | String a s' =>
      String (if Ascii.eqb a old then new else a) (replace_byte old new s')
  end.

Definition filepath_ToSlash (os : GOOS) (path : string) : string :=
  if Ascii.eqb (Separator os) "/" then path
  else replace_byte (Separator os) "/" path.

(** The slice expression [s[0 : len(s)-len(suffix)]]. *)
Definition slice_to (s : string) (hi : nat) : string := substring 0 hi s.

(** Spec-side reading of "the suffix starting at the last dot of [s], empty
    when [s] contains no dot". *)
Fixpoint suffix_from_last_dot (s : string) : string :=
  match s with
  | EmptyString => EmptyString
  | String a s' =>
      if ContainsByte s' "." then suffix_from_last_dot s'
      else if Ascii.eqb a "." then s else EmptyString
  end.

Fixpoint has_separator (os : GOOS) (s : string) : bool :=
  match s with
  | EmptyString => false
  | String a s' => IsPathSeparator os a || has_separator os s'
  end.

(** The final element of a path: what follows its last separator. *)
Fixpoint last_element (os : GOOS) (s : string) : string :=
  match s with
  | EmptyString => EmptyString
  | String a s' =>
      if has_separator os s' then last_element os s'
      else if IsPathSeparator os a then s' else s
  end.



(* ===================================================================== *)
(** ** html/template: the engine contract                                 *)
(* ===================================================================== *)

(** The values a caller binds to a template ([interface{}]) and the text the
    engine prints for the action [{{.}}]. *)
Class Binding : Type := {
  Data : Type;
  evalDot : Data -> string;
}.

(** [Delims] represents a set of Left and Right delimiters. *)
Record Delims : Type := {
  Left : string;
  Right : string;
}.

(** What a template function returns: [template.HTML] is inserted verbatim,
    a plain [string] is escaped by the engine. *)
Inductive Value : Type :=
| VHTML (s : string)
| VString (s : string).

(** The part of a parsed template the package can observe: literal text,
    the bound data, a call of a registered function and the inclusion of
    another template of the set. *)
Inductive Node : Type :=
| NText (s : string)
| NDot
| NCall (fname : string) (args : list string)
| NTemplate (name : string).

Definition Tree : Type := list Node.

(** One template of a set: its parsed body, or [None] for a name created by
    [New] and not parsed (yet). *)
Abbreviation Template := (option Tree).

Section EngineModel.
Context `{Binding}.

(** The entries of a [template.FuncMap].  User code registers Go functions;
    [layoutFuncs] registers three closures.  A closure is stored with the
    variables it captures; the template-set pointer it also captures is the
    set the closure is registered in and is supplied when it is called. *)
Inductive Func : Type :=
| FUser (f : list string -> Value * option error)
| FYield (name : string) (binding : Data)
| FCurrent (name : string)
| FPartial (requirePartials withoutPrefix : bool) (name : string) (binding : Data).

(** [*template.Template] as the package holds it: a pointer to one template
    together with what is shared by the templates associated with it.

    [html/template] keeps two tables.  [ts_tmpl] is its own name space
    ([nameSpace.set]): the templates [New] has allocated and [Lookup] finds,
    each with the tree it currently has ([None]: allocated, nothing parsed
    into it).  [ts_text] is the table of the underlying [text/template]
    ([common.tmpl]): the trees [Parse] has installed, which the action
    [{{template "name"}}] looks up.  [ts_funcs] is the function map and
    [ts_delims] the delimiters of the underlying template.

    [ts_name] is the name of the template the pointer denotes, and [ts_self]
    tells whether that template is itself the entry of its name in
    [ts_tmpl], as it is for the result of [template.New]. *)
Record TemplateSet : Type := {
  ts_name : string;
  ts_self : bool;
  ts_delims : Delims;
  ts_funcs : gmap string Func;
  ts_tmpl : gmap string Template;
  ts_text : gmap string Tree;
}.

(** [template.New(name)]: a fresh name space in which the new template is
    registered under its name. *)
Definition template_New (name : string) : TemplateSet :=
  {| ts_name := name;
     ts_self := true;
     ts_delims := {| Left := ""; Right := "" |};
     ts_funcs := ∅;
     ts_tmpl := {[ name := None ]};
     ts_text := ∅ |}.

(** [t.Delims(left, right)] *)
Definition template_Delims (left right : string) (t : TemplateSet) : TemplateSet :=
  {| ts_name := ts_name t;
     ts_self := ts_self t;
     ts_delims := {| Left := left; Right := right |};
     ts_funcs := ts_funcs t;
     ts_tmpl := ts_tmpl t;
     ts_text := ts_text t |}.

(** [t.Funcs(funcMap)]: adds the elements of the map to the set's function
    map, overwriting entries of the same name. *)
Definition template_Funcs (m : gmap string Func) (t : TemplateSet) : TemplateSet :=
  {| ts_name := ts_name t;
     ts_self := ts_self t;
     ts_delims := ts_delims t;
     ts_funcs := m ∪ ts_funcs t;
     ts_tmpl := ts_tmpl t;
     ts_text := ts_text t |}.

(** [t.New(name)]: "allocates a new HTML template associated with the given
    one and with the same delimiters.  If a template with the given name
    already exists, the new HTML template will replace it.  The existing
    template will be reset and disassociated with t."

    [
    tmpl := &Template{nil, t.text.New(name), nil, t.nameSpace}
    if existing, ok := tmpl.set[name]; ok {
        emptyTmpl := New(existing.Name())
        *existing = *emptyTmpl
    }
    tmpl.set[name] = tmpl
    ]

    The call has two outcomes.  [template_Assoc] is the name space the new
    template lives in: that of [t], with the new, empty template under
    [name]; the table of the underlying [text/template] is not touched.
    [template_receiver] is what the pointer [t] denotes afterwards: the same
    name space, unless [t] itself was the existing template of that name;
    then [t] has been overwritten by a fresh template of its own name
    ([template_reset]) and has left the name space. *)
Definition template_Assoc (name : string) (t : TemplateSet) : TemplateSet :=
  {| ts_name := ts_name t;
     ts_self := ts_self t && negb (String.eqb name (ts_name t));
     ts_delims := ts_delims t;
     ts_funcs := ts_funcs t;
     ts_tmpl := <[ name := None ]> (ts_tmpl t);
     ts_text := ts_text t |}.

(** [*existing = *New(existing.Name())] seen through the pointer
    [existing]: the fresh name space holds the template [New] has allocated,
    not the overwritten one. *)
Definition template_reset (t : TemplateSet) : TemplateSet :=
  {| ts_name := ts_name t;
     ts_self := false;
     ts_delims := {| Left := ""; Right := "" |};
     ts_funcs := ∅;
     ts_tmpl := {[ ts_name t := None ]};
     ts_text := ∅ |}.

(** Whether [t.New(name)] resets [t] itself. *)
Definition resets (name : string) (t : TemplateSet) : bool :=
  ts_self t && String.eqb name (ts_name t).

(** The receiver [t] of [t.New(name)] once the name space of the new
    template has become [ns]. *)
Definition template_receiver (name : string) (t ns : TemplateSet) : TemplateSet :=
  if resets name t then template_reset t else ns.

(** [t.Lookup(name)]: [None] is Go's nil. *)
Definition template_Lookup (name : string) (t : TemplateSet) : option Template :=
  ts_tmpl t !! name.

Definition found (name : string) (t : TemplateSet) : bool :=
  bool_decide (is_Some (template_Lookup name t)).

End EngineModel.

(* ===================================================================== *)
(** ** io/fs: the directory walk contract                                 *)
(* ===================================================================== *)

(** [fs.DirEntry], of which the package reads [IsDir] only. *)
Record DirEntry : Type := {
  IsDir : bool;
}.

(** One call of the [fs.WalkDirFunc]: [fn(path, d, err)]. *)
Record WalkEvent : Type := {
  ev_path : string;
  ev_info : option DirEntry;
  ev_err : option error;
}.

(** [fs.FS] as the package consumes it: the calls [fs.WalkDir] makes for a
    root, in order, and whole-file reads. *)
Record FS : Type := {
  fs_walk : string -> list WalkEvent;
  fs_ReadFile : string -> Result string;
}.

(** [fs.WalkDir(fsys, root, fn)] for a callback that threads a state: the
    walk stops at the first non-nil error the callback returns and returns
    it.  (The callback of this package never returns [fs.SkipDir].) *)
Fixpoint WalkDir {S : Type} (fn : S -> WalkEvent -> S * option error)
    (events : list WalkEvent) (s : S) : S * option error :=
  match events with
  | [] => (s, None)
  | ev :: rest =>
      match fn s ev with
      | (s', Some e) => (s', Some e)
      | (s', None) => WalkDir fn rest s'
      end
  end.

(* ===================================================================== *)
(** ** fs.go                                                              *)
(* ===================================================================== *)

(** [func (e *EmbedFileSystem) Walk(root string, walkFn fs.WalkDirFunc) error]:
    the walk of the embedded file system with entries without a [DirEntry]
    dropped.  (As for [WalkDir], for a [walkFn] that does not return
    [fs.SkipDir].) *)
Definition EmbedFileSystem_Walk {S : Type} (e : FS) (root : string)
    (walkFn : S -> WalkEvent -> S * option error) (s : S) : S * option error :=
  WalkDir (fun s ev =>
             match ev_info ev with
             | None => (s, None)
             | Some _ => walkFn s ev
             end)
    (fs_walk e root) s.

(** [func (tfs tmplFS) Walk(root string, walkFn fs.WalkDirFunc) error]: an
    entry reported with an error ends the walk with that error. *)
Definition tmplFS_Walk {S : Type} (tfs : FS) (root : string)
    (walkFn : S -> WalkEvent -> S * option error) (s : S) : S * option error :=
  WalkDir (fun s ev =>
             match ev_err ev with
             | Some err => (s, Some err)
             | None => walkFn s ev
             end)
    (fs_walk tfs root) s.

(* ===================================================================== *)
(** ** net/http and io: the output sink contract                          *)
(* ===================================================================== *)

(** The observable state of an [http.ResponseWriter]. *)
Record ResponseWriter : Type := {
  rw_header : gmap string string;
  rw_status : option Z;
  rw_body : string;
}.

(** An [io.Writer]: either a plain byte sink or a header-capable one.  A
    sink with a [fault] fails every [Write] with that error. *)
Inductive Writer : Type :=
| PlainWriter (out : string) (fault : option error)
| HTTPWriter (hw : ResponseWriter) (fault : option error).

(** [w.Header().Set(key, value)] *)
Definition Header_Set (key value : string) (hw : ResponseWriter) : ResponseWriter :=
  {| rw_header := <[ key := value ]> (rw_header hw);
     rw_status := rw_status hw;
     rw_body := rw_body hw |}.

(** [w.WriteHeader(code)]: only the first call takes effect. *)
Definition WriteHeader (code : Z) (hw : ResponseWriter) : ResponseWriter :=
  {| rw_header := rw_header hw;
     rw_status := match rw_status hw with Some c => Some c | None => Some code end;
     rw_body := rw_body hw |}.

(** [w.Write(p)] *)
Definition io_Write (p : string) (w : Writer) : Writer * option error :=
  match w with
  | PlainWriter out (Some e) => (w, Some e)
  | PlainWriter out None => (PlainWriter (out +:+ p) None, None)
  | HTTPWriter hw (Some e) => (w, Some e)
  | HTTPWriter hw None =>
      (HTTPWriter {| rw_header := rw_header hw;
                     rw_status := match rw_status hw with
                                  | Some c => Some c
                                  | None => Some 200%Z
                                  end;
                     rw_body := rw_body hw +:+ p |} None, None)
  end.

(** [buf.WriteTo(w)]: one [Write] of the whole content, none when empty. *)
Definition Buffer_WriteTo (buf : string) (w : Writer) : Writer * option error :=
  match buf with
  | EmptyString => (w, None)
  | _ => io_Write buf w
  end.

Definition StatusInternalServerError : Z := 500.

Definition newline : string := String (ascii_of_nat 10) EmptyString.

(** [http.Error(w, error, code)] *)
Definition http_Error (hw : ResponseWriter) (fault : option error)
    (msg : string) (code : Z) : Writer :=
  let hw := Header_Set "Content-Type" "text/plain; charset=utf-8" hw in
  let hw := Header_Set "X-Content-Type-Options" "nosniff" hw in
  let hw := WriteHeader code hw in
  fst (io_Write (msg +:+ newline) (HTTPWriter hw fault)).

(* ===================================================================== *)
(** ** The environment of the package                                     *)
(* ===================================================================== *)

(** Modelled from the spec: the buffer pool (bufferpool.go is not among the
    sources).  A pool has a bounded size and a capacity ceiling per buffer;
    [Get] hands out an empty buffer and [Put] takes it back. *)
Record GenericBufferPool : Type := {
  bp_size : Z;
  bp_alloc : Z;
}.

Definition NewSizedBufferPool (size alloc : Z) : GenericBufferPool :=
  {| bp_size := size; bp_alloc := alloc |}.

Definition bp_Get (bp : GenericBufferPool) : string := "".

(** Everything the package takes from outside: the target platform, the
    engine's parser and escaper, [bytes.TrimSpace], [filepath.Rel], the
    process file system behind [os.DirFS] and the built-in helper map
    (helpers.go is not among the sources; the map is a parameter).

    [parse delims funcs name text] is the parser of [text/template/parse]
    at work on the text of the template [name]: it gives the tree of the
    text itself and the trees of the [{{define}}] and [{{block}}] clauses
    in it, by name. *)
Class Environment `{Binding} : Type := {
  goos : GOOS;
  escape : string -> string;
  parse : Delims -> gset string -> string -> string
          -> Result (Tree * gmap string Tree);
  bytes_TrimSpace : string -> string;
  filepath_Rel : string -> string -> Result string;
  os_DirFS : string -> FS;
  helperFuncs : gmap string Func;
}.

Section Package.
Context `{Environment}.

(** [parse.IsEmptyTree]: "reports whether this tree (node) is empty of
    everything but space or comments".  Of the nodes of the model only text
    can be empty. *)
Definition IsEmptyTree (tree : Tree) : bool :=
  forallb (fun n =>
             match n with
             | NText s => Nat.eqb (String.length (bytes_TrimSpace s)) 0
             | NDot | NCall _ _ | NTemplate _ => false
             end) tree.

(** [parse.Parse(name, text, leftDelim, rightDelim, funcs...)]: the map from
    template name to tree.  The clauses of the text are in the map when its
    own tree is added (the method [add] of [Tree]): the tree of the text takes the name
    unless a clause has defined that name with a non-empty body; two
    non-empty definitions of the name are an error. *)
Definition parse_Parse (delims : Delims) (funcs : gset string) (name text : string)
    : Result (gmap string Tree) :=
  match parse delims funcs name text with
  | Err e => Err e
  | Ok (top, defined) =>
      match defined !! name with
      | None => Ok (<[ name := top ]> defined)
      | Some tree =>
          if IsEmptyTree tree then Ok (<[ name := top ]> defined)
          else if IsEmptyTree top then Ok defined
          else Err (ErrParse ("multiple definition of template " +:+ quoted name))
      end
  end.

(** [text/template]'s [AddParseTree] for one tree of a parse
    (the method [associate]): "if a template by that name exists, don't
    replace it with an empty template". *)
Definition associate (new old : option Tree) : option Tree :=
  match new, old with
  | Some tree, Some o => Some (if IsEmptyTree tree then o else tree)
  | Some tree, None => Some tree
  | None, _ => old
  end.

(** [tmpl.Parse(text)] for the template [name] of the name space [t].  The
    text is parsed with the delimiters and the function names of the
    underlying template, and every tree of the parse is added to its
    table.  Then the name space is brought in line with that table:

    [
    for _, v := range ret.Templates() {
        name := v.Name()
        tmpl := t.set[name]
        if tmpl == nil {
            tmpl = t.new(name)
        }
        tmpl.text = v
        tmpl.Tree = v.Tree
    }
    ]

    ([Parse] refuses to work on a name space that has executed a template;
    the package parses only into a name space it has just created.) *)
Definition template_Parse (name text : string) (t : TemplateSet) : Result TemplateSet :=
  match parse_Parse (ts_delims t) (dom (ts_funcs t)) name text with
  | Err e => Err e
  | Ok trees =>
      let common := merge associate trees (ts_text t) in
      Ok {| ts_name := ts_name t;
            ts_self := ts_self t;
            ts_delims := ts_delims t;
            ts_funcs := ts_funcs t;
            ts_tmpl := (Some <$> common) ∪ ts_tmpl t;
            ts_text := common |}
  end.

(** The text the engine writes for a function result. *)
Definition emit (v : Value) : string :=
  match v with
  | VHTML s => s
  | VString s => escape s
  end.

Definition isNil {A : Type} (p : option A) : bool :=
  match p with None => true | Some _ => false end.

(** *** The closures of [layoutFuncs]

    [ExecuteTemplate_] and [Lookup_] stand for the methods of the captured
    [templates] pointer. *)
Section Closures.
Variable ExecuteTemplate_ : string -> string -> Data -> option (string * option error).
Variable Lookup_ : string -> option Template.

(** [r.execute(templates, name, binding)] *)
Definition Render_execute (name : string) (binding : Data)
    : option (string * option error) :=
  let buf := "" in
  ExecuteTemplate_ buf name binding.

(** ["yield": func() (template.HTML, error)] *)
Definition yield_func (name : string) (binding : Data)
    : option (Value * option error) :=
  match Render_execute name binding with
  | None => None
  | Some (buf, err) => Some (VHTML buf, err)
  end.

(** ["current": func() (string, error)] *)
Definition current_func (name : string) : option (Value * option error) :=
  Some (VString name, None).

(** ["partial": func(partialName string) (template.HTML, error)] *)
Definition partial_func (requirePartials withoutPrefix : bool)
    (name : string) (binding : Data) (partialName : string)
    : option (Value * option error) :=
  let fullPartialName := partialName +:+ "-" +:+ name in
  let fullPartialName :=
    if isNil (Lookup_ fullPartialName) && withoutPrefix
    then partialName else fullPartialName in
  if requirePartials || negb (isNil (Lookup_ fullPartialName)) then
    match Render_execute fullPartialName binding with
    | None => None
    | Some (buf, err) => Some (VHTML buf, err)
    end
  else Some (VHTML "", None).

(** The engine calling a registered function with literal arguments. *)
Definition call_func (fn : Func) (fname : string) (args : list string)
    : option (Value * option error) :=
  match fn, args with
  | FUser f, _ => Some (f args)
  | FYield name binding, [] => yield_func name binding
  | FCurrent name, [] => current_func name
  | FPartial rp wp name binding, [partialName] =>
      partial_func rp wp name binding partialName
  | _, _ => Some (VHTML "", Some (ErrArgs fname))
  end.

End Closures.

(** Execution of a parsed body into the buffer [buf].  [exec] runs a named
    template of the set, [call] calls a function by name.  [None] means that
    the execution did not come to an end. *)
Fixpoint run_nodes
    (exec : string -> string -> Data -> option (string * option error))
    (call : string -> list string -> option (Value * option error))
    (d : Data) (buf : string) (nodes : Tree) : option (string * option error) :=
  match nodes with
  | [] => Some (buf, None)
  | NText s :: rest => run_nodes exec call d (buf +:+ s) rest
  | NDot :: rest => run_nodes exec call d (buf +:+ evalDot d) rest
  | NCall f args :: rest =>
      match call f args with
      | None => None
      | Some (_, Some e) => Some (buf, Some (ErrCall f e))
      | Some (v, None) => run_nodes exec call d (buf +:+ emit v) rest
      end
  | NTemplate name :: rest =>
      match exec buf name d with
      | None => None
      | Some (buf', Some e) => Some (buf', Some e)
      | Some (buf', None) => run_nodes exec call d buf' rest
      end
  end.

(** The function table of a set as the engine sees it during an execution. *)
Definition call_in
    (exec : string -> string -> Data -> option (string * option error))
    (t : TemplateSet) (f : string) (args : list string)
    : option (Value * option error) :=
  match ts_funcs t !! f with
  | None => Some (VHTML "", Some (ErrNoFunc f))
  | Some fn => call_func exec (fun n => template_Lookup n t) fn f args
  end.

(** The two ways a template of the set is run.  [t.ExecuteTemplate(buf,
    name, data)] finds the name in the name space of [html/template]
    ([included = false]); the action [{{template "name"}}] finds it in the
    table of the underlying [text/template] ([included = true]).  Functions
    called from either re-enter through [ExecuteTemplate].  Templates can
    include themselves and the layout closures re-enter the engine, so the
    depth of nested executions is bounded by [fuel]. *)
Fixpoint execute (fuel : nat) (t : TemplateSet) (included : bool) (buf : string)
    (name : string) (d : Data) : option (string * option error) :=
  match fuel with
  | O => None
  | S k =>
      let run := run_nodes (execute k t true) (call_in (execute k t false) t) d buf in
      if included then
        match ts_text t !! name with
        | Some tree => run tree
        | None =>
            Some (buf, Some (if isNil (ts_tmpl t !! name)
                             then ErrNoSuchTemplate name
                             else ErrEmptyTemplate name))
        end
      else
        match ts_tmpl t !! name with
        | None => Some (buf, Some (ErrUndefined name))
        | Some None => Some (buf, Some (ErrIncomplete name))
        | Some (Some tree) => run tree
        end
  end.

(** [t.ExecuteTemplate(buf, name, data)] *)
Definition ExecuteTemplate (fuel : nat) (t : TemplateSet) (buf : string)
    (name : string) (d : Data) : option (string * option error) :=
  execute fuel t false buf name d.

(* ===================================================================== *)
(** ** render.go                                                          *)
(* ===================================================================== *)

Definition ContentHTML : string := "text/html".
Definition ContentLength : string := "Content-Length".
Definition ContentType : string := "Content-Type".
Definition defaultCharset : string := "UTF-8".

(** [Options] is a struct for specifying configuration options for the
    [Render] object.  A nil interface or slice field is [None] or []. *)
Record Options : Type := {
  Directory : string;
  FileSystem : option FS;
  Layout : string;
  Extensions : list string;
  Funcs : list (gmap string Func);
  Delims_ : Delims;
  Charset : string;
  DisableCharset : bool;
  PrefixJSON : string;
  HTMLContentType : string;
  IsDevelopment : bool;
  UseMutexLock : bool;
  UnEscapeHTML : bool;
  RequirePartials : bool;
  DisableHTTPErrorRendering : bool;
  RenderPartialsWithoutPrefix : bool;
  BufferPool : option GenericBufferPool;
}.

(** [HTMLOptions] is a struct for overriding some rendering Options for a
    specific HTML call. *)
Record HTMLOptions : Type := {
  HTMLOptions_Layout : string;
  HTMLOptions_Funcs : gmap string Func;
}.

(** The two implementations of the [rwLock] interface. *)
Inductive rwLock : Type :=
| RWMutex
| emptyLock.

(** [Render] is the service object.  [templates] is a pointer: [None] is
    nil, and every holder of the pointer sees the set stored here. *)
Record Render : Type := {
  lock : rwLock;
  opt : Options;
  templates : option TemplateSet;
  compiledCharset : string;
}.

Definition set_opt (o : Options) (r : Render) : Render :=
  {| lock := lock r; opt := o; templates := templates r;
     compiledCharset := compiledCharset r |}.

Definition set_templates (t : option TemplateSet) (r : Render) : Render :=
  {| lock := lock r; opt := opt r; templates := t;
     compiledCharset := compiledCharset r |}.

(** [r.opt.Funcs = funcs] *)
Definition set_Funcs (funcs : list (gmap string Func)) (o : Options) : Options :=
  {| Directory := Directory o; FileSystem := FileSystem o; Layout := Layout o;
     Extensions := Extensions o; Funcs := funcs; Delims_ := Delims_ o;
     Charset := Charset o; DisableCharset := DisableCharset o;
     PrefixJSON := PrefixJSON o; HTMLContentType := HTMLContentType o;
     IsDevelopment := IsDevelopment o; UseMutexLock := UseMutexLock o;
     UnEscapeHTML := UnEscapeHTML o; RequirePartials := RequirePartials o;
     DisableHTTPErrorRendering := DisableHTTPErrorRendering o;
     RenderPartialsWithoutPrefix := RenderPartialsWithoutPrefix o;
     BufferPool := BufferPool o |}.

(** The zero value [var o Options]. *)
Definition zeroOptions : Options :=
  {| Directory := ""; FileSystem := None; Layout := ""; Extensions := [];
     Funcs := []; Delims_ := {| Left := ""; Right := "" |}; Charset := "";
     DisableCharset := false; PrefixJSON := ""; HTMLContentType := "";
     IsDevelopment := false; UseMutexLock := false; UnEscapeHTML := false;
     RequirePartials := false; DisableHTTPErrorRendering := false;
     RenderPartialsWithoutPrefix := false; BufferPool := None |}.

(** [func (r *Render) prepareOptions()]: fill in the defaults if need be. *)
Definition Render_prepareOptions (r : Render) : Render :=
  let o := opt r in
  let charset :=
    if Nat.eqb (String.length (Charset o)) 0 then defaultCharset else Charset o in
  let cc :=
    if negb (DisableCharset o) then "; charset=" +:+ charset
    else compiledCharset r in
  let directory :=
    if Nat.eqb (String.length (Directory o)) 0 then "templates" else Directory o in
  let fsys :=
    match FileSystem o with None => Some (os_DirFS ".") | Some f => Some f end in
  let exts :=
    if Nat.eqb (length (Extensions o)) 0 then [".tmpl"] else Extensions o in
  let htmlct :=
    if Nat.eqb (String.length (HTMLContentType o)) 0 then ContentHTML
    else HTMLContentType o in
  let pool :=
    match BufferPool o with
    | None => Some (NewSizedBufferPool 32 (Z.shiftl 1 19))
    | Some p => Some p
    end in
  let lk := if IsDevelopment o || UseMutexLock o then RWMutex else emptyLock in
  {| lock := lk;
     opt := {| Directory := directory; FileSystem := fsys; Layout := Layout o;
               Extensions := exts; Funcs := Funcs o; Delims_ := Delims_ o;
               Charset := charset; DisableCharset := DisableCharset o;
               PrefixJSON := PrefixJSON o; HTMLContentType := htmlct;
               IsDevelopment := IsDevelopment o; UseMutexLock := UseMutexLock o;
               UnEscapeHTML := UnEscapeHTML o;
               RequirePartials := RequirePartials o;
               DisableHTTPErrorRendering := DisableHTTPErrorRendering o;
               RenderPartialsWithoutPrefix := RenderPartialsWithoutPrefix o;
               BufferPool := pool |};
     templates := templates r;
     compiledCharset := cc |}.

(** [func New(options ...Options) *Render].  The struct literal
    [Render{opt: o}] leaves the lock nil until [prepareOptions] assigns it;
    the model has no nil lock, the placeholder is overwritten. *)
Definition New (options : list Options) : Render :=
  let o := match options with o :: _ => o | [] => zeroOptions end in
  let r := {| lock := emptyLock; opt := o; templates := None;
              compiledCharset := "" |} in
  Render_prepareOptions r.

(** [r.opt.FileSystem], which [prepareOptions] has made non-nil. *)
Definition the_FileSystem (o : Options) : FS :=
  match FileSystem o with Some f => f | None => os_DirFS "." end.

(** The [for _, extension := range r.opt.Extensions] loop of the walk
    callback for one file.  [t] is what [r.templates] points to; [tmpl] is
    the local variable of the loop body. *)
Fixpoint compile_extensions (fsys : FS) (path rel ext : string)
    (extensions : list string) (err : option error) (t : TemplateSet)
    : TemplateSet * option error :=
  match extensions with
  | [] => (t, err)
  | extension :: rest =>
      if String.eqb ext extension then
        match fs_ReadFile fsys path with
        | Err e => (t, Some e)
        | Ok buf =>
            let name := slice_to rel (String.length rel - String.length ext) in
            let tmpl := template_Assoc (filepath_ToSlash goos name) t in
            match template_Parse (filepath_ToSlash goos name) buf tmpl with
            | Err e =>
                (template_receiver (filepath_ToSlash goos name) t tmpl, Some e)
            | Ok tmpl =>
                compile_extensions fsys path rel ext rest None
                  (template_receiver (filepath_ToSlash goos name) t tmpl)
            end
        end
      else compile_extensions fsys path rel ext rest err t
  end.

(** The extension the walk callback computes for a relative path. *)
Definition compile_ext (rel : string) : string :=
  if ContainsByte rel "." then filepath_Ext goos rel else "".

(** The [fs.WalkDirFunc] of [compileTemplatesFromDir]. *)
Definition compile_walkFn (o : Options) (dir : string) (t : TemplateSet)
    (ev : WalkEvent) : TemplateSet * option error :=
  match ev_info ev with
  | None => (t, None)
  | Some info =>
      if IsDir info || negb (isNil (ev_err ev)) then (t, None)
      else
        match filepath_Rel dir (ev_path ev) with
        | Err e => (t, Some e)
        | Ok rel =>
            let ext := compile_ext rel in
            compile_extensions (the_FileSystem o) (ev_path ev) rel ext
              (Extensions o) None t
        end
  end.

(** [func (r *Render) compileTemplatesFromDir() error].  The new set is
    stored in [r.templates] before anything is compiled into it, and the
    walk works on the stored set. *)
Definition Render_compileTemplatesFromDir (r : Render) : Render * option error :=
  let dir := Directory (opt r) in
  let t := template_New dir in
  let t := template_Delims (Left (Delims_ (opt r))) (Right (Delims_ (opt r))) t in
  let t := foldl (fun t funcs => template_Funcs funcs t) t (Funcs (opt r)) in
  let t := template_Funcs helperFuncs t in
  let '(t, err) :=
    WalkDir (compile_walkFn (opt r) dir)
      (fs_walk (the_FileSystem (opt r)) dir) t in
  (set_templates (Some t) r, err).

Definition Render_CompileTemplates (r : Render) : Render * option error :=
  Render_compileTemplatesFromDir r.

(** [func (r *Render) TemplateLookup(t string) *template.Template].  The
    outer [None]: no set is held and the call dereferences nil; [Some None]:
    the method returns nil. *)
Definition Render_TemplateLookup (name : string) (r : Render)
    : option (option Template) :=
  match templates r with
  | None => None
  | Some t => Some (template_Lookup name t)
  end.

(** [func (r *Render) layoutFuncs(templates, name, binding) template.FuncMap].
    The closures read [r.opt] when they run; nothing changes the two flags
    between their creation and the execution of the same call, so the
    closure records them. *)
Definition Render_layoutFuncs (r : Render) (name : string) (binding : Data)
    : gmap string Func :=
  {[ "yield" := FYield name binding;
     "current" := FCurrent name;
     "partial" := FPartial (RequirePartials (opt r))
                           (RenderPartialsWithoutPrefix (opt r)) name binding ]}.

(** [func (r *Render) prepareHTMLOptions(htmlOpt []HTMLOptions) HTMLOptions] *)
Definition Render_prepareHTMLOptions (r : Render) (htmlOpt : list HTMLOptions)
    : HTMLOptions :=
  let layout := Layout (opt r) in
  let funcs : gmap string Func := ∅ in
  let funcs := foldl (fun funcs tmp => tmp ∪ funcs) funcs (Funcs (opt r)) in
  match htmlOpt with
  | opt0 :: _ =>
      let layout :=
        if Nat.ltb 0 (String.length (HTMLOptions_Layout opt0))
        then HTMLOptions_Layout opt0 else layout in
      let funcs := HTMLOptions_Funcs opt0 ∪ funcs in
      {| HTMLOptions_Layout := layout; HTMLOptions_Funcs := funcs |}
  | [] => {| HTMLOptions_Layout := layout; HTMLOptions_Funcs := funcs |}
  end.

(* ===================================================================== *)
(** ** engine.go                                                          *)
(* ===================================================================== *)

(** [Engine] is the generic interface for all responses.  [None]: the call
    does not return (the execution does not end within [fuel], or it
    dereferences nil). *)
Class Engine (E : Type) : Type :=
  Engine_Render : nat -> E -> Writer -> Data -> option (Writer * option error).

(** [Head] defines the basic ContentType and Status fields. *)
Record Head : Type := {
  Head_ContentType : string;
  Head_Status : Z;
}.

(** [HTML] built-in renderer. *)
Record HTML : Type := {
  HTML_Head : Head;
  HTML_Name : string;
  HTML_Templates : TemplateSet;
  HTML_bp : option GenericBufferPool;
}.

(** [func (h Head) Write(w http.ResponseWriter)] *)
Definition Head_Write (h : Head) (w : ResponseWriter) : ResponseWriter :=
  WriteHeader (Head_Status h) (Header_Set ContentType (Head_ContentType h) w).

(** [func (h HTML) Render(w io.Writer, binding interface{}) error].  Without
    a pool the buffer stays nil and the engine has nothing to write to. *)
Definition HTML_Render (fuel : nat) (h : HTML) (w : Writer) (binding : Data)
    : option (Writer * option error) :=
  match HTML_bp h with
  | None => None
  | Some bp =>
      let buf := bp_Get bp in
      match ExecuteTemplate fuel (HTML_Templates h) buf (HTML_Name h) binding with
      | None => None
      | Some (_, Some err) => Some (w, Some err)
      | Some (buf, None) =>
          let w :=
            match w with
            | HTTPWriter hw fault => HTTPWriter (Head_Write (HTML_Head h) hw) fault
            | PlainWriter _ _ => w
            end in
          let '(w, _) := Buffer_WriteTo buf w in
          Some (w, None)
      end
  end.

#[export] Instance HTML_Engine : Engine HTML := HTML_Render.

(* ===================================================================== *)
(** ** render.go: the coordinator                                         *)
(* ===================================================================== *)

(** [func (r *Render) Render(w io.Writer, e Engine, data interface{}) error] *)
Definition Render_Render {E : Type} `{Engine E} (fuel : nat) (r : Render)
    (w : Writer) (e : E) (data : Data) : option (Writer * option error) :=
  match Engine_Render fuel e w data with
  | None => None
  | Some (w, err) =>
      match w, err with
      | HTTPWriter hw fault, Some er =>
          if negb (DisableHTTPErrorRendering (opt r))
          then Some (http_Error hw fault (Error er) StatusInternalServerError, err)
          else Some (w, err)
      | _, _ => Some (w, err)
      end
  end.

(** Lines 275-291 of [HTML]: discard the set in development mode and compile
    one if none is held. *)
Definition HTML_compile (r : Render) (opt_ : HTMLOptions) : Render * option error :=
  (* development mode: recompile the templates on every HTML request *)
  let r := if IsDevelopment (opt r) then set_templates None r else r in
  match templates r with
  | None =>
      let r :=
        if Nat.ltb 0 (size (HTMLOptions_Funcs opt_))
        then set_opt (set_Funcs (Funcs (opt r) ++ [HTMLOptions_Funcs opt_]) (opt r)) r
        else r in
      Render_CompileTemplates r
  | Some _ => (r, None)
  end.

(** Lines 292-303 of [HTML]: register the per-call functions on the held
    set, look the page up and substitute the layout. *)
Definition HTML_select (r : Render) (opt_ : HTMLOptions) (templates_ : TemplateSet)
    (name : string) (binding : Data) : TemplateSet * string :=
  let templates_ :=
    if Nat.ltb 0 (size (HTMLOptions_Funcs opt_))
    then template_Funcs (HTMLOptions_Funcs opt_) templates_
    else templates_ in
  match template_Lookup name templates_ with
  | Some tpl =>
      if Nat.ltb 0 (String.length (HTMLOptions_Layout opt_))
      then (template_Funcs (Render_layoutFuncs r name binding) templates_,
            HTMLOptions_Layout opt_)
      else (templates_, name)
  | None => (templates_, name)
  end.

(** [func (r *Render) HTML(w, status, name, binding, htmlOpt ...) error].
    The result carries the coordinator and the writer as the call leaves
    them; the functions registered on [templates] are registered on the set
    [r.templates] points to. *)
Definition Render_HTML (fuel : nat) (r : Render) (w : Writer) (status : Z)
    (name : string) (binding : Data) (htmlOpt : list HTMLOptions)
    : option (Render * Writer * option error) :=
  let opt_ := Render_prepareHTMLOptions r htmlOpt in
  match HTML_compile r opt_ with
  | (r, Some err) => Some (r, w, Some err)
  | (r, None) =>
      match templates r with
      | None => None
      | Some templates_ =>
          let '(templates_, name') := HTML_select r opt_ templates_ name binding in
          let r := set_templates (Some templates_) r in
          let head :=
            {| Head_ContentType := HTMLContentType (opt r) +:+ compiledCharset r;
               Head_Status := status |} in
          let h :=
            {| HTML_Head := head;
               HTML_Name := name';
               HTML_Templates := templates_;
               HTML_bp := BufferPool (opt r) |} in
          match Render_Render fuel r w h binding with
          | None => None
          | Some (w, err) => Some (r, w, err)
          end
      end
  end.

(* ===================================================================== *)
(** ** Definitions that follow the words of the specification             *)
(* ===================================================================== *)


(** The set before the walk of a compile pass: a new set with the
    configured delimiters, the configured function maps and the helpers. *)
Definition compile_base (r : Render) : TemplateSet :=
  template_Funcs helperFuncs
    (foldl (fun t funcs => template_Funcs funcs t)
       (template_Delims (Left (Delims_ (opt r))) (Right (Delims_ (opt r)))
          (template_New (Directory (opt r))))
       (Funcs (opt r))).

(** The template name the walk callback derives from a relative path. *)
Definition compile_name (rel : string) : string :=
  filepath_ToSlash goos
    (slice_to rel (String.length rel - String.length (compile_ext rel))).


(** The parsing context of a set: its delimiters and function names. *)
Definition same_context (t t' : TemplateSet) : Prop :=
  ts_delims t' = ts_delims t /\ ts_funcs t' = ts_funcs t.

(** Whether an [HTML] call compiles: in development mode, or when no set
    is held. *)
Definition HTML_compiles (r : Render) : bool :=
  IsDevelopment (opt r) || isNil (templates r).

(** One way of running templates answers wherever another one does. *)
Definition exec_le
    (e1 e2 : string -> string -> Data -> option (string * option error)) : Prop :=
  forall buf name d r, e1 buf name d = Some r -> e2 buf name d = Some r.

Definition call_le
    (c1 c2 : string -> list string -> option (Value * option error)) : Prop :=
  forall f args r, c1 f args = Some r -> c2 f args = Some r.

(** A walk event that is a file of the tree: an entry that is not a
    directory, reported without error. *)
Definition is_file (ev : WalkEvent) : Prop :=
  ev_info ev = Some {| IsDir := false |} /\ ev_err ev = None.

(** The function maps of [Options.Funcs] merged as [prepareHTMLOptions]
    merges them. *)
Definition merged_Funcs (funcs : list (gmap string Func)) : gmap string Func :=
  foldl (fun funcs tmp => tmp ∪ funcs) ∅ funcs.


(** The entries the walk callback of the compile pass returns from at its
    first test, and the files whose extension is not in the allow-list. *)
Definition compile_ignores (o : Options) (dir : string) (ev : WalkEvent) : bool :=
  match ev_info ev with
  | None => true
  | Some info =>
      IsDir info || negb (isNil (ev_err ev))
      || match filepath_Rel dir (ev_path ev) with
         | Err _ => false
         | Ok rel => negb (existsb (String.eqb (compile_ext rel)) (Extensions o))
         end
  end.

(** The template name a walk entry is compiled under, if it is compiled:
    the entry is a file reported without error, its path is relative to the
    root and its extension is in the allow-list. *)
Definition compiled_name (o : Options) (dir : string) (ev : WalkEvent)
    : option string :=
  match ev_info ev, ev_err ev with
  | Some {| IsDir := false |}, None =>
      match filepath_Rel dir (ev_path ev) with
      | Ok rel =>
          if existsb (String.eqb (compile_ext rel)) (Extensions o)
          then Some (compile_name rel) else None
      | Err _ => None
      end
  | _, _ => None
  end.

Definition compiles_as (o : Options) (dir : string) (ev : WalkEvent) (name : string)
    : Prop :=
  compiled_name o dir ev = Some name.


(** No file of the walk is compiled under the name of the root template of
    the set, which is the configured directory. *)
Definition no_root_name (o : Options) (dir : string) (events : list WalkEvent)
    : Prop :=
  forall ev, ev ∈ events -> ~ compiles_as o dir ev dir.

(** The trees a walk entry brings into the set: the entry is compiled, it
    can be read, and its text, parsed for the template of its name with the
    delimiters and function names of [t], gives the trees: the tree of the
    file under its own name and those of the clauses it defines. *)
Definition brought (o : Options) (dir : string) (t : TemplateSet) (ev : WalkEvent)
    : option (gmap string Tree) :=
  match compiled_name o dir ev with
  | None => None
  | Some name =>
      match fs_ReadFile (the_FileSystem o) (ev_path ev) with
      | Err _ => None
      | Ok text =>
          match parse_Parse (ts_delims t) (dom (ts_funcs t)) name text with
          | Err _ => None
          | Ok trees => Some trees
          end
      end
  end.

Definition brings (o : Options) (dir : string) (t : TemplateSet) (ev : WalkEvent)
    (trees : gmap string Tree) : Prop :=
  brought o dir t ev = Some trees.

(** The name space after [New(name)] and a [Parse] that gave [trees], when
    [New] did not reset the receiver. *)
Definition compiled_into (name : string) (trees : gmap string Tree) (t : TemplateSet)
    : TemplateSet :=
  {| ts_name := ts_name t;
     ts_self := ts_self t;
     ts_delims := ts_delims t;
     ts_funcs := ts_funcs t;
     ts_tmpl := (Some <$> merge associate trees (ts_text t))
                ∪ <[ name := None ]> (ts_tmpl t);
     ts_text := merge associate trees (ts_text t) |}.

End Package.

Arguments ExecuteTemplate : simpl never.

(* ===================================================================== *)
(** ** A concrete environment for the examples                            *)
(* ===================================================================== *)

(** Strings as bound data; [{{.}}] prints them unchanged (the examples bind
    texts without characters that the engine escapes). *)
Definition demo_binding : Binding :=
  {| Data := string; evalDot := fun d => d |}.

(** The sources used by the examples, with the trees the engine parses them
    to.  Every other text is a syntax error for the demo parser. *)
Definition demo_sources : list (string * Tree) :=
  [ ("Hello {{.}}.", [NText "Hello "; NDot; NText "."]);
    ("<b>{{yield}}</b>", [NText "<b>"; NCall "yield" []; NText "</b>"]);
    ("{{yield}}", [NCall "yield" []]);
    ("{{current}}", [NCall "current" []]);
    ("[{{partial `footer`}}]", [NText "["; NCall "partial" ["footer"]; NText "]"]);
    ("END", [NText "END"]);
    ("FALLBACK", [NText "FALLBACK"]);
    ("page", [NText "page"]);
    ("{{define `home`}}SHADOW{{end}}", []);
    ("", []) ].

(** The [{{define}}] clauses of those sources. *)
Definition demo_defined : list (string * list (string * Tree)) :=
  [ ("{{define `home`}}SHADOW{{end}}", [("home", [NText "SHADOW"])]) ].

Fixpoint assoc {A : Type} (k : string) (l : list (string * A)) : option A :=
  match l with
  | [] => None
  | (k', v) :: rest => if String.eqb k k' then Some v else assoc k rest
  end.

(** The names of the functions a tree calls. *)
Fixpoint called (tree : Tree) : list string :=
  match tree with
  | [] => []
  | NCall f _ :: rest => f :: called rest
  | _ :: rest => called rest
  end.

(** Parsing fails on unknown text and, as in the engine, on a call of a
    function that is not defined in the set. *)
Definition demo_parse (_ : Delims) (funcs : gset string) (name text : string)
    : Result (Tree * gmap string Tree) :=
  match assoc text demo_sources with
  | None => Err (ErrParse "unexpected input")
  | Some tree =>
      let defined := default [] (assoc text demo_defined) in
      if forallb (fun f => bool_decide (f ∈ funcs))
           (called tree ++ concat (map (fun d => called (snd d)) defined))
      then Ok (tree, list_to_map defined)
      else Err (ErrParse "function not defined")
  end.

(** [bytes.TrimSpace] on ASCII text. *)
Definition is_space (a : ascii) : bool :=
  let n := nat_of_ascii a in (Nat.leb 9 n && Nat.leb n 13) || Nat.eqb n 32.

Fixpoint trim_left (s : string) : string :=
  match s with
  | EmptyString => EmptyString
  | String a s' => if is_space a then trim_left s' else s
  end.

Fixpoint trim_right (s : string) : string :=
  match s with
  | EmptyString => EmptyString
  | String a s' =>
      match trim_right s' with
      | EmptyString => if is_space a then EmptyString else String a EmptyString
      | r => String a r
      end
  end.

Definition demo_TrimSpace (s : string) : string := trim_right (trim_left s).

(** If [s] starts with [p], the rest of [s]. *)
Fixpoint strip_prefix (p s : string) : option string :=
  match p, s with
  | EmptyString, _ => Some s
  | String a p', String b s' => if Ascii.eqb a b then strip_prefix p' s' else None
  | _, _ => None
  end.

(** [filepath.Rel] on clean slash-separated paths below the base. *)
Definition demo_Rel (base targ : string) : Result string :=
  if String.eqb base targ then Ok "."
  else match strip_prefix (base +:+ "/") targ with
       | Some rel => Ok rel
       | None => Err (ErrRel base targ)
       end.

(** A flat in-memory file system: the files, in walk order, with their
    full paths. *)
Definition memFS (files : list (string * string)) : FS :=
  {| fs_walk := fun root =>
       {| ev_path := root; ev_info := Some {| IsDir := true |}; ev_err := None |}
       :: map (fun f => {| ev_path := fst f;
                           ev_info := Some {| IsDir := false |};
                           ev_err := None |}) files;
     fs_ReadFile := fun path =>
       match assoc path files with
       | Some text => Ok text
       | None => Err (ErrIO "file does not exist")
       end |}.

(** The helper stubs that make [yield], [partial] and [current] known to the
    parser before a layout is in use. *)
Definition demo_helperFuncs : gmap string (@Func demo_binding) :=
  {[ "yield" := FUser (fun _ => (VString "", Some (ErrUser "yield called with no layout defined")));
     "partial" := FUser (fun _ => (VString "", Some (ErrUser "block called with no layout defined")));
     "current" := FUser (fun _ => (VString "", None)) ]}.

Definition demo_env : @Environment demo_binding :=
  {| goos := Unix;
     escape := fun s => s;
     parse := demo_parse;
     bytes_TrimSpace := demo_TrimSpace;
     filepath_Rel := demo_Rel;
     os_DirFS := fun _ => memFS [];
     helperFuncs := demo_helperFuncs |}.

Section DemoInputs.
#[local] Existing Instance demo_binding.
#[local] Existing Instance demo_env.

(** Options over an in-memory tree rooted at [templates]. *)
Definition demo_options (files : list (string * string)) (layout : string)
    (extensions : list string) (strict fallback : bool) : Options :=
  {| Directory := "templates"; FileSystem := Some (memFS files);
     Layout := layout; Extensions := extensions; Funcs := [];
     Delims_ := {| Left := ""; Right := "" |}; Charset := "";
     DisableCharset := false; PrefixJSON := ""; HTMLContentType := "";
     IsDevelopment := false; UseMutexLock := false; UnEscapeHTML := false;
     RequirePartials := strict; DisableHTTPErrorRendering := false;
     RenderPartialsWithoutPrefix := fallback; BufferPool := None |}.

(** [home.tmpl] and [layout.tmpl] of the specification's first scenario. *)
Definition site_basic : list (string * string) :=
  [ ("templates/home.tmpl", "Hello {{.}}.");
    ("templates/layout.tmpl", "<b>{{yield}}</b>");
    ("templates/notes.txt", "{{") ].

(** A tree whose second template does not parse. *)
Definition site_broken : list (string * string) :=
  [ ("templates/a.tmpl", "page");
    ("templates/b.tmpl", "{{") ].

(** A page without its own footer, a shared footer and a layout that asks
    for the footer partial. *)
Definition site_partial : list (string * string) :=
  [ ("templates/footer.tmpl", "FALLBACK");
    ("templates/home.tmpl", "page");
    ("templates/layout.tmpl", "[{{partial `footer`}}]") ].

(** A dotless file in a directory whose name has a dot. *)
Definition site_dotted_dir : list (string * string) :=
  [ ("templates/v1.2/README", "page") ].


(** A later file that defines the name of an earlier one. *)
Definition site_define : list (string * string) :=
  [ ("templates/home.tmpl", "Hello {{.}}.");
    ("templates/widgets.tmpl", "{{define `home`}}SHADOW{{end}}") ].

Definition render_basic : Render := New [demo_options site_basic "layout" [] false false].
Definition render_define : Render :=
  New [demo_options site_define "" [] false false].
Definition render_broken : Render := New [demo_options site_broken "" [] false false].
Definition render_partial : Render :=
  New [demo_options site_partial "layout" [] true true].
Definition render_dotted_dir : Render :=
  New [demo_options site_dotted_dir "" [""] false false].

(** A response that has not been started, and a plain sink that fails
    every write. *)
Definition fresh_response : Writer :=
  HTTPWriter {| rw_header := ∅; rw_status := None; rw_body := "" |} None.


(** A per-call override that only adds a function. *)
Definition override_funcs : HTMLOptions :=
  {| HTMLOptions_Layout := "";
     HTMLOptions_Funcs := {[ "shout" := FUser (fun _ => (VString "HEY", None)) ]} |}.

(** Development mode without the lock override. *)
Definition dev_options : Options :=
  {| Directory := ""; FileSystem := None; Layout := ""; Extensions := [];
     Funcs := []; Delims_ := {| Left := ""; Right := "" |}; Charset := "";
     DisableCharset := false; PrefixJSON := ""; HTMLContentType := "";
     IsDevelopment := true; UseMutexLock := false; UnEscapeHTML := false;
     RequirePartials := false; DisableHTTPErrorRendering := false;
     RenderPartialsWithoutPrefix := false; BufferPool := None |}.

(** The coordinator after its first compile pass, and the set it holds. *)
Definition compiled (r : Render) : Render := fst (Render_CompileTemplates r).

Definition set_of (r : Render) : TemplateSet :=
  match templates (compiled r) with
  | Some t => t
  | None => template_New ""
  end.

(** The response of the specification's first scenario. *)
Definition hello_response : Writer :=
  HTTPWriter {| rw_header := {[ "Content-Type" := "text/html; charset=UTF-8" ]};
                rw_status := Some 200%Z;
                rw_body := "<b>Hello World.</b>" |} None.

(** The walk event of a file. *)
Definition file_event (path : string) : WalkEvent :=
  {| ev_path := path; ev_info := Some {| IsDir := false |}; ev_err := None |}.

(** Development mode over the first tree. *)
Definition render_dev : Render :=
  New [ {| Directory := "templates"; FileSystem := Some (memFS site_basic);
           Layout := "layout"; Extensions := []; Funcs := [];
           Delims_ := {| Left := ""; Right := "" |}; Charset := "";
           DisableCharset := false; PrefixJSON := ""; HTMLContentType := "";
           IsDevelopment := true; UseMutexLock := false; UnEscapeHTML := false;
           RequirePartials := false; DisableHTTPErrorRendering := false;
           RenderPartialsWithoutPrefix := false; BufferPool := None |} ].

(** A tree whose root cannot be walked: [fs.WalkDir] reports the root once,
    without a [DirEntry] and with the error. *)
Definition missingFS : FS :=
  {| fs_walk := fun root =>
       [ {| ev_path := root; ev_info := None;
            ev_err := Some (ErrIO "file does not exist") |} ];
     fs_ReadFile := fun _ => Err (ErrIO "file does not exist") |}.

(** The first tree with every read failing. *)
Definition unreadableFS : FS :=
  {| fs_walk := fs_walk (memFS site_basic);
     fs_ReadFile := fun _ => Err (ErrIO "permission denied") |}.

(** A tree with a directory that cannot be listed: [fs.WalkDir] reports it
    a second time, with the error. *)
Definition unlistableFS : FS :=
  {| fs_walk := fun root =>
       [ {| ev_path := root; ev_info := Some {| IsDir := true |}; ev_err := None |};
         file_event (root +:+ "/a.tmpl");
         {| ev_path := root +:+ "/private";
            ev_info := Some {| IsDir := true |};
            ev_err := Some (ErrIO "permission denied") |};
         file_event (root +:+ "/z.tmpl") ];
     fs_ReadFile := fun _ => Ok "page" |}.

Definition render_missing : Render :=
  New [ {| Directory := "templates"; FileSystem := Some missingFS;
           Layout := ""; Extensions := []; Funcs := [];
           Delims_ := {| Left := ""; Right := "" |}; Charset := "";
           DisableCharset := false; PrefixJSON := ""; HTMLContentType := "";
           IsDevelopment := false; UseMutexLock := false; UnEscapeHTML := false;
           RequirePartials := false; DisableHTTPErrorRendering := false;
           RenderPartialsWithoutPrefix := false; BufferPool := None |} ].

Definition render_unreadable : Render :=
  New [ {| Directory := "templates"; FileSystem := Some unreadableFS;
           Layout := ""; Extensions := []; Funcs := [];
           Delims_ := {| Left := ""; Right := "" |}; Charset := "";
           DisableCharset := false; PrefixJSON := ""; HTMLContentType := "";
           IsDevelopment := false; UseMutexLock := false; UnEscapeHTML := false;
           RequirePartials := false; DisableHTTPErrorRendering := false;
           RenderPartialsWithoutPrefix := false; BufferPool := None |} ].

(** A response on which the caller has already written a status and some
    body. *)
Definition started_response : ResponseWriter :=
  {| rw_header := ∅; rw_status := Some 204%Z; rw_body := "early" |}.

(** The demo environment on a platform whose separator is the backslash. *)
Definition demo_env_windows : @Environment demo_binding :=
  {| goos := Windows;
     escape := fun s => s;
     parse := demo_parse;
     bytes_TrimSpace := demo_TrimSpace;
     filepath_Rel := demo_Rel;
     os_DirFS := fun _ => memFS [];
     helperFuncs := demo_helperFuncs |}.

(** A walk callback that counts the entries it is given. *)
Definition count_entries (n : nat) (ev : WalkEvent) : nat * option error :=
  (S n, None).

End DemoInputs.

(* ===================================================================== *)
(** * Properties                                                          *)
(* ===================================================================== *)

(** ** Strings and paths *)

Lemma string_app_cons (a : ascii) (p q : string) :
  String a p +:+ q = String a (p +:+ q).
Proof. reflexivity. Qed.


Lemma string_app_empty_r (s : string) : s +:+ "" = s.
Proof.
  induction s as [|a s IH]; [reflexivity|].
  rewrite string_app_cons. congruence.
Qed.

Lemma ContainsByte_app (p q : string) (c : ascii) :
  ContainsByte (p +:+ q) c = ContainsByte p c || ContainsByte q c.
Proof.
  induction p as [|a p IH]; [reflexivity|].
  rewrite string_app_cons. simpl. rewrite IH. apply orb_assoc.
Qed.

Lemma suffix_from_last_dot_nodot (s : string) :
  ContainsByte s "." = false -> suffix_from_last_dot s = "".
Proof.
  induction s as [|a s IH]; simpl; [reflexivity|].
  intros Hc. apply orb_false_iff in Hc as [Ha Hs].
  rewrite Hs, Ha. reflexivity.
Qed.

Lemma last_element_nosep (os : GOOS) (s : string) :
  has_separator os s = false -> last_element os s = s.
Proof.
  destruct s as [|a s]; simpl; [reflexivity|].
  intros Hs. apply orb_false_iff in Hs as [Ha Hs].
  rewrite Hs, Ha. reflexivity.
Qed.

Lemma last_element_suffix (os : GOOS) (s : string) :
  exists p, s = p +:+ last_element os s.
Proof.
  induction s as [|a s [p IH]]; simpl.
  - exists "". reflexivity.
  - destruct (has_separator os s).
    + exists (String a p). rewrite string_app_cons. f_equal. exact IH.
    + destruct (IsPathSeparator os a).
      * exists (String a ""). reflexivity.
      * exists "". reflexivity.
Qed.

Lemma dot_not_separator (os : GOOS) (a : ascii) :
  IsPathSeparator os a = true -> Ascii.eqb a "." = false.
Proof.
  destruct (Ascii.eqb_spec a ".") as [->|]; [|reflexivity].
  destruct os; discriminate.
Qed.

Lemma ext_scan_None (os : GOOS) (s : string) :
  ext_scan os s = None ->
  has_separator os s = false /\ ContainsByte s "." = false.
Proof.
  induction s as [|a s IH]; simpl; [auto|].
  destruct (ext_scan os s) as [r|]; [discriminate|].
  destruct (IsPathSeparator os a) eqn:Hsep; [discriminate|].
  destruct (Ascii.eqb a ".") eqn:Hdot; [discriminate|].
  intros _. destruct (IH eq_refl) as [-> ->]. auto.
Qed.

Lemma ext_scan_Some (os : GOOS) (s r : string) :
  ext_scan os s = Some r ->
  (has_separator os s = true /\ r = suffix_from_last_dot (last_element os s))
  \/ (has_separator os s = false /\ ContainsByte s "." = true
      /\ r = suffix_from_last_dot s).
Proof.
  revert r. induction s as [|a s IH]; simpl; intros r; [discriminate|].
  destruct (ext_scan os s) as [r'|] eqn:Hscan.
  - intros [= <-]. destruct (IH r' eq_refl) as [[Hs Hr]|(Hs & Hd & Hr)].
    + left. rewrite Hs, orb_true_r. auto.
    + rewrite Hs, Hd, orb_true_r, orb_false_r.
      destruct (IsPathSeparator os a); [left|right]; auto.
  - destruct (ext_scan_None os s Hscan) as [Hs Hd].
    rewrite Hs, Hd, orb_false_r.
    destruct (IsPathSeparator os a) eqn:Hsep.
    + intros [= <-]. left. split; [reflexivity|].
      symmetry. apply suffix_from_last_dot_nodot. exact Hd.
    + destruct (Ascii.eqb a ".") eqn:Hdot; [|discriminate].
      intros [= <-]. right. rewrite orb_false_r. auto.
Qed.

(** [filepath.Ext] is the suffix from the last dot of the final element. *)
Lemma filepath_Ext_final_element (os : GOOS) (s : string) :
  filepath_Ext os s = suffix_from_last_dot (last_element os s).
Proof.
  unfold filepath_Ext. destruct (ext_scan os s) as [r|] eqn:Hscan.
  - destruct (ext_scan_Some os s r Hscan) as [[_ Hr]|(Hs & _ & Hr)]; [exact Hr|].
    rewrite (last_element_nosep os s Hs). exact Hr.
  - destruct (ext_scan_None os s Hscan) as [Hs Hd].
    rewrite (last_element_nosep os s Hs).
    symmetry. apply suffix_from_last_dot_nodot. exact Hd.
Qed.

Lemma ext_scan_suffix (os : GOOS) (s r : string) :
  ext_scan os s = Some r -> exists p, s = p +:+ r.
Proof.
  revert r. induction s as [|a s IH]; simpl; intros r; [discriminate|].
  destruct (ext_scan os s) as [r'|].
  - intros [= <-]. destruct (IH r' eq_refl) as [p Hp].
    exists (String a p). rewrite string_app_cons. f_equal. exact Hp.
  - destruct (IsPathSeparator os a).
    + intros [= <-]. exists (String a s).
      symmetry. apply string_app_empty_r.
    + destruct (Ascii.eqb a "."); [|discriminate].
      intros [= <-]. exists "". reflexivity.
Qed.

Lemma string_length_app (p q : string) :
  String.length (p +:+ q) = String.length p + String.length q.
Proof.
  induction p as [|a p IH]; [reflexivity|].
  rewrite string_app_cons. simpl. congruence.
Qed.

Lemma slice_to_app (p q : string) :
  slice_to (p +:+ q) (String.length (p +:+ q) - String.length q) = p.
Proof.
  rewrite string_length_app.
  replace (String.length p + String.length q - String.length q)
    with (String.length p) by lia.
  unfold slice_to. induction p as [|a p IH].
  - destruct q; reflexivity.
  - rewrite string_app_cons. simpl. congruence.
Qed.

Lemma nonempty_ltb (s : string) :
  Nat.ltb 0 (String.length s) = false <-> s = "".
Proof.
  destruct s; simpl; split; intros Hs; try reflexivity; discriminate.
Qed.

Section Properties.
Context `{Environment}.

(** ** The compile pass: extension and name of a file *)

Lemma compile_ext_final_element (rel : string) :
  compile_ext rel = suffix_from_last_dot (last_element goos rel).
Proof.
  unfold compile_ext. destruct (ContainsByte rel ".") eqn:Hdot.
  - apply filepath_Ext_final_element.
  - symmetry. apply suffix_from_last_dot_nodot.
    destruct (last_element_suffix goos rel) as [p Hp].
    rewrite Hp, ContainsByte_app in Hdot.
    apply orb_false_iff in Hdot as [_ Hdot]. exact Hdot.
Qed.

Lemma compile_ext_suffix (rel : string) :
  exists p, rel = p +:+ compile_ext rel.
Proof.
  unfold compile_ext, filepath_Ext.
  destruct (ContainsByte rel "."); [|exists rel; symmetry; apply string_app_empty_r].
  destruct (ext_scan goos rel) as [r|] eqn:Hscan.
  - exact (ext_scan_suffix goos rel r Hscan).
  - exists rel. symmetry. apply string_app_empty_r.
Qed.

Lemma compile_extensions_skip (fsys : FS) (path rel ext : string)
    (extensions : list string) (err : option error) (t : TemplateSet) :
  ext ∉ extensions ->
  compile_extensions fsys path rel ext extensions err t = (t, err).
Proof.
  induction extensions as [|e rest IH]; simpl; intros Hnot; [reflexivity|].
  apply not_elem_of_cons in Hnot as [Hne Hrest].
  destruct (String.eqb_spec ext e) as [->|_]; [contradiction|].
  apply IH. exact Hrest.
Qed.

(** C10 (amended).  The extension the compile pass computes for a file is
    the suffix starting at the last dot of the FINAL ELEMENT of its
    root-relative path (empty when that element has no dot); the relative
    path is the derived name followed by exactly that suffix; and a file
    whose suffix is not in the allow-list is left alone, without error. *)
Theorem extension_is_suffix_of_final_element
    (rel path : string) (fsys : FS) (extensions : list string) (t : TemplateSet) :
  compile_ext rel = suffix_from_last_dot (last_element goos rel)
  /\ slice_to rel (String.length rel - String.length (compile_ext rel))
       +:+ compile_ext rel = rel
  /\ (compile_ext rel ∉ extensions ->
      compile_extensions fsys path rel (compile_ext rel) extensions None t
      = (t, None)).
Proof.
  split; [apply compile_ext_final_element|]. split.
  - destruct (compile_ext_suffix rel) as [p Hp].
    generalize dependent (compile_ext rel). intros e ->.
    rewrite slice_to_app. reflexivity.
  - apply compile_extensions_skip.
Qed.

(** ** Construction *)

Lemma compile_frame (r : Render) :
  lock (fst (Render_CompileTemplates r)) = lock r
  /\ opt (fst (Render_CompileTemplates r)) = opt r
  /\ compiledCharset (fst (Render_CompileTemplates r)) = compiledCharset r
  /\ exists t, templates (fst (Render_CompileTemplates r)) = Some t.
Proof.
  unfold Render_CompileTemplates, Render_compileTemplatesFromDir.
  destruct (WalkDir _ _ _) as [t err]. simpl. eauto.
Qed.

Lemma HTML_compile_frame (r : Render) (o : HTMLOptions) :
  lock (fst (HTML_compile r o)) = lock r
  /\ compiledCharset (fst (HTML_compile r o)) = compiledCharset r
  /\ (opt (fst (HTML_compile r o)) = opt r
      \/ opt (fst (HTML_compile r o))
         = set_Funcs (Funcs (opt r) ++ [HTMLOptions_Funcs o]) (opt r)).
Proof.
  unfold HTML_compile.
  set (r0 := if IsDevelopment (opt r) then set_templates None r else r).
  assert (Hr0 : lock r0 = lock r /\ opt r0 = opt r
                 /\ compiledCharset r0 = compiledCharset r).
  { unfold r0. destruct (IsDevelopment (opt r)); simpl; auto. }
  destruct Hr0 as (Hl & Ho & Hc).
  destruct (templates r0); simpl; [auto|].
  match goal with |- context [Render_CompileTemplates ?x] =>
    destruct (compile_frame x) as (Hl' & Ho' & Hc' & _) end.
  rewrite Hl', Ho', Hc'.
  destruct (Nat.ltb 0 (size (HTMLOptions_Funcs o))); simpl;
    rewrite ?Hl, ?Ho, ?Hc; auto.
Qed.

(** What a returning [HTML] call did, stage by stage. *)
Lemma Render_HTML_inv (fuel : nat) (r : Render) (w : Writer) (status : Z)
    (name : string) (binding : Data) (htmlOpt : list HTMLOptions)
    (r' : Render) (w' : Writer) (err : option error) :
  Render_HTML fuel r w status name binding htmlOpt = Some (r', w', err) ->
  let opt_ := Render_prepareHTMLOptions r htmlOpt in
  let r1 := fst (HTML_compile r opt_) in
  (exists cerr, snd (HTML_compile r opt_) = Some cerr
     /\ r' = r1 /\ w' = w /\ err = Some cerr)
  \/ (snd (HTML_compile r opt_) = None
      /\ exists t, templates r1 = Some t
      /\ r' = set_templates (Some (fst (HTML_select r1 opt_ t name binding))) r1
      /\ Render_Render fuel r' w
           {| HTML_Head :=
                {| Head_ContentType := HTMLContentType (opt r') +:+ compiledCharset r';
                   Head_Status := status |};
              HTML_Name := snd (HTML_select r1 opt_ t name binding);
              HTML_Templates := fst (HTML_select r1 opt_ t name binding);
              HTML_bp := BufferPool (opt r') |} binding
         = Some (w', err)).
Proof.
  unfold Render_HTML. simpl.
  destruct (HTML_compile r (Render_prepareHTMLOptions r htmlOpt)) as [r1 [cerr|]];
    simpl.
  - intros [= <- <- <-]. left. eauto.
  - destruct (templates r1) as [t|] eqn:Ht; [|discriminate].
    destruct (HTML_select r1 _ t name binding) as [t' name'] eqn:Hsel. simpl.
    destruct (Render_Render fuel _ w _ binding) as [[w1 e1]|] eqn:Hrr; [|discriminate].
    intros [= <- <- <-]. right. split; [reflexivity|].
    exists t. rewrite Hsel. simpl.
    split; [reflexivity|]. split; [reflexivity|]. exact Hrr.
Qed.

(** C8.  [New] selects the real read/write lock whenever development mode
    is enabled (whatever the override flag says) or the override flag is
    set, and the no-op guard exactly when both are unset; neither a compile
    pass nor an [HTML] call changes the selected lock afterwards. *)
Theorem lock_selected_once (options : list Options) :
  let o := match options with o :: _ => o | [] => zeroOptions end in
  (IsDevelopment o = true -> lock (New options) = RWMutex)
  /\ (UseMutexLock o = true -> lock (New options) = RWMutex)
  /\ (lock (New options) = emptyLock
      <-> IsDevelopment o = false /\ UseMutexLock o = false)
  /\ (forall r, lock (fst (Render_CompileTemplates r)) = lock r)
  /\ (forall fuel r w status name binding htmlOpt r' w' err,
        Render_HTML fuel r w status name binding htmlOpt = Some (r', w', err) ->
        lock r' = lock r).
Proof.
  intros o.
  assert (Hlock : lock (New options)
                  = if IsDevelopment o || UseMutexLock o then RWMutex else emptyLock).
  { unfold New, Render_prepareOptions. simpl. fold o. reflexivity. }
  rewrite Hlock.
  split; [intros ->; reflexivity|].
  split; [intros ->; rewrite orb_true_r; reflexivity|].
  split.
  - destruct (IsDevelopment o), (UseMutexLock o); simpl; split;
      try (intros [? ?]); try discriminate; auto.
  - split; [intros r; apply compile_frame|].
    intros fuel r w status name binding htmlOpt r' w' err Hcall.
    apply Render_HTML_inv in Hcall.
    pose proof (HTML_compile_frame r (Render_prepareHTMLOptions r htmlOpt))
      as (Hl & _ & _).
    destruct Hcall as [(cerr & _ & -> & _)|(_ & t & _ & -> & _)];
      simpl; exact Hl.
Qed.

(** ** Per-call options *)


Lemma prepareHTMLOptions_funcs (r : Render) (o : HTMLOptions)
    (rest : list HTMLOptions) :
  HTMLOptions_Funcs (Render_prepareHTMLOptions r (o :: rest))
  = HTMLOptions_Funcs o
    ∪ foldl (fun funcs tmp => tmp ∪ funcs) ∅ (Funcs (opt r)).
Proof. reflexivity. Qed.


(** ** The layout callbacks *)

Lemma layoutFuncs_partial (r : Render) (name : string) (binding : Data)
    (m : gmap string Func) :
  (Render_layoutFuncs r name binding ∪ m) !! "partial"
  = Some (FPartial (RequirePartials (opt r))
            (RenderPartialsWithoutPrefix (opt r)) name binding).
Proof. apply lookup_union_Some_l. reflexivity. Qed.

Lemma layoutFuncs_yield (r : Render) (name : string) (binding : Data)
    (m : gmap string Func) :
  (Render_layoutFuncs r name binding ∪ m) !! "yield" = Some (FYield name binding).
Proof. apply lookup_union_Some_l. reflexivity. Qed.

Lemma ExecuteTemplate_eq (k : nat) (t : TemplateSet) (buf name : string) (d : Data) :
  ExecuteTemplate (S k) t buf name d
  = match ts_tmpl t !! name with
    | None => Some (buf, Some (ErrUndefined name))
    | Some None => Some (buf, Some (ErrIncomplete name))
    | Some (Some tree) =>
        run_nodes (execute k t true) (call_in (ExecuteTemplate k t) t) d buf tree
    end.
Proof. reflexivity. Qed.

Lemma ExecuteTemplate_undefined (k : nat) (t : TemplateSet) (buf name : string)
    (d : Data) :
  template_Lookup name t = None ->
  ExecuteTemplate (S k) t buf name d = Some (buf, Some (ErrUndefined name)).
Proof.
  unfold template_Lookup. intros Hl. rewrite ExecuteTemplate_eq, Hl. reflexivity.
Qed.

(** C3 (amended).  [partial X] in a layout rendered for page [P] resolves a
    name first and then decides: the resolved name is ["X-P"], or the bare
    [X] when ["X-P"] is absent and the fallback option is on.  If ["X-P"]
    exists it is executed; the fallback [X] is executed when it exists; when
    the RESOLVED name is absent and strict mode is off the result is empty
    output and no error; in strict mode the RESOLVED name (not always the
    first candidate) is executed whether it exists or not, and executing an
    absent name is a not-found error. *)
Theorem partial_executes_resolved_name
    (k : nat) (r : Render) (t : TemplateSet) (P X : string) (d : Data) :
  let t' := template_Funcs (Render_layoutFuncs r P d) t in
  let first := X +:+ "-" +:+ P in
  let resolved :=
    if isNil (template_Lookup first t') && RenderPartialsWithoutPrefix (opt r)
    then X else first in
  let run name :=
    match ExecuteTemplate k t' "" name d with
    | None => None
    | Some (buf, err) => Some (VHTML buf, err)
    end in
  let partial := call_in (ExecuteTemplate k t') t' "partial" [X] in
  (is_Some (template_Lookup first t') -> partial = run first)
  /\ (template_Lookup first t' = None ->
      RenderPartialsWithoutPrefix (opt r) = true ->
      is_Some (template_Lookup X t') -> partial = run X)
  /\ (template_Lookup resolved t' = None ->
      RequirePartials (opt r) = false -> partial = Some (VHTML "", None))
  /\ (RequirePartials (opt r) = true -> partial = run resolved)
  /\ (template_Lookup resolved t' = None ->
      forall k', ExecuteTemplate (S k') t' "" resolved d
                 = Some ("", Some (ErrUndefined resolved))).
Proof.
  intros t' first resolved run partial.
  assert (Hp : partial
               = if RequirePartials (opt r) || negb (isNil (template_Lookup resolved t'))
                 then run resolved else Some (VHTML "", None)).
  { unfold partial, call_in. unfold t' at 2. simpl ts_funcs.
    rewrite layoutFuncs_partial. reflexivity. }
  rewrite Hp. repeat split.
  - intros [x Hx]. unfold resolved. rewrite Hx. simpl.
    rewrite Hx, orb_true_r. reflexivity.
  - intros Hf Hw [x Hx]. unfold resolved. rewrite Hf, Hw. simpl.
    rewrite Hx, orb_true_r. reflexivity.
  - intros Hres Hrp. rewrite Hres, Hrp. reflexivity.
  - intros Hrp. rewrite Hrp. reflexivity.
  - intros Hres k'. apply ExecuteTemplate_undefined. exact Hres.
Qed.

(** ** The compile pass *)

Lemma WalkDir_app {S : Type} (fn : S -> WalkEvent -> S * option error)
    (pre rest : list WalkEvent) (s : S) :
  WalkDir fn (pre ++ rest) s
  = match WalkDir fn pre s with
    | (s', Some e) => (s', Some e)
    | (s', None) => WalkDir fn rest s'
    end.
Proof.
  revert s. induction pre as [|ev pre IH]; intros s; simpl; [reflexivity|].
  destruct (fn s ev) as [s' [e|]]; [reflexivity|]. apply IH.
Qed.

Lemma existsb_eqb_false (x : string) (l : list string) :
  existsb (String.eqb x) l = false -> x ∉ l.
Proof.
  induction l as [|y l IH]; simpl; intros Hex; [apply not_elem_of_nil|].
  apply orb_false_iff in Hex as [Hxy Hl].
  apply not_elem_of_cons. split; [|auto].
  intros ->. rewrite String.eqb_refl in Hxy. discriminate.
Qed.

Lemma existsb_eqb_true (x : string) (l : list string) :
  existsb (String.eqb x) l = true -> x ∈ l.
Proof.
  induction l as [|y l IH]; simpl; intros Hex; [discriminate|].
  apply orb_true_iff in Hex as [Hxy|Hl].
  - apply String.eqb_eq in Hxy as ->. left.
  - right. auto.
Qed.

Lemma existsb_eqb_in (x : string) (l : list string) :
  x ∈ l -> existsb (String.eqb x) l = true.
Proof.
  induction l as [|y l IH]; simpl; intros Hin; [inversion Hin|].
  apply elem_of_cons in Hin as [->|Hin].
  - rewrite String.eqb_refl. reflexivity.
  - rewrite (IH Hin). apply orb_true_r.
Qed.

Lemma lookup_union_first {A : Type} (m1 m2 : gmap string A) (k : string) :
  (m1 ∪ m2) !! k = match m1 !! k with Some x => Some x | None => m2 !! k end.
Proof.
  destruct (m1 !! k) as [x|] eqn:Hk.
  - apply lookup_union_Some_l. exact Hk.
  - apply lookup_union_r. exact Hk.
Qed.

(** *** The name of a file, in the words of the specification *)





Lemma compiled_name_Some (o : Options) (dir : string) (ev : WalkEvent)
    (name : string) :
  compiled_name o dir ev = Some name
  <-> is_file ev
      /\ exists rel, filepath_Rel dir (ev_path ev) = Ok rel
           /\ compile_ext rel ∈ Extensions o
           /\ compile_name rel = name.
Proof.
  unfold compiled_name, is_file. split.
  - destruct (ev_info ev) as [[isdir]|]; [|discriminate].
    destruct isdir; [discriminate|].
    destruct (ev_err ev); [discriminate|].
    destruct (filepath_Rel dir (ev_path ev)) as [rel|]; [|discriminate].
    destruct (existsb _ _) eqn:Hex; [|discriminate].
    intros [= <-]. split; [auto|]. exists rel.
    split; [reflexivity|]. split; [apply existsb_eqb_true; exact Hex|reflexivity].
  - intros [[-> ->] (rel & -> & Hin & <-)].
    rewrite (existsb_eqb_in _ _ Hin). reflexivity.
Qed.

(** *** One file *)

Lemma merge_associate_lookup (trees m : gmap string Tree) (n : string) :
  merge associate trees m !! n = associate (trees !! n) (m !! n).
Proof. rewrite lookup_merge. destruct (trees !! n), (m !! n); reflexivity. Qed.

(** The trees of a parse always include the tree of the template's own
    name. *)
Lemma parse_Parse_own (delims : Delims) (funcs : gset string) (name text : string)
    (trees : gmap string Tree) :
  parse_Parse delims funcs name text = Ok trees -> is_Some (trees !! name).
Proof.
  unfold parse_Parse.
  destruct (parse delims funcs name text) as [[top defined]|e]; [|discriminate].
  destruct (defined !! name) as [tree|] eqn:Hd.
  - destruct (IsEmptyTree tree).
    + intros [= <-]. rewrite lookup_insert_eq. eauto.
    + destruct (IsEmptyTree top); [|discriminate]. intros [= <-]. eauto.
  - intros [= <-]. rewrite lookup_insert_eq. eauto.
Qed.

Lemma resets_false (name : string) (t : TemplateSet) :
  name <> ts_name t -> resets name t = false.
Proof.
  intros Hne. unfold resets.
  destruct (String.eqb_spec name (ts_name t)); [contradiction|].
  apply andb_false_r.
Qed.

Lemma template_receiver_kept (name : string) (t ns : TemplateSet) :
  resets name t = false -> template_receiver name t ns = ns.
Proof. unfold template_receiver. intros ->. reflexivity. Qed.

Lemma template_Assoc_self (name : string) (t : TemplateSet) :
  resets name t = false ->
  ts_self t && negb (String.eqb name (ts_name t)) = ts_self t.
Proof.
  unfold resets. destruct (ts_self t), (String.eqb name (ts_name t));
    simpl; congruence.
Qed.


(** [New] followed by a [Parse] that succeeds. *)
Lemma template_Parse_Assoc (name text : string) (t : TemplateSet)
    (trees : gmap string Tree) :
  resets name t = false ->
  parse_Parse (ts_delims t) (dom (ts_funcs t)) name text = Ok trees ->
  template_Parse name text (template_Assoc name t) = Ok (compiled_into name trees t).
Proof.
  intros Hr Hp. unfold template_Parse. cbn [template_Assoc ts_delims ts_funcs].
  rewrite Hp. unfold compiled_into. cbn [template_Assoc ts_name ts_self ts_delims
    ts_funcs ts_tmpl ts_text].
  rewrite (template_Assoc_self name t Hr). reflexivity.
Qed.

Lemma compiled_into_lookup (name : string) (trees : gmap string Tree)
    (t : TemplateSet) (n : string) :
  template_Lookup n (compiled_into name trees t)
  = match associate (trees !! n) (ts_text t !! n) with
    | Some tree => Some (Some tree)
    | None => if decide (n = name) then Some None else template_Lookup n t
    end.
Proof.
  unfold template_Lookup, compiled_into. cbn [ts_tmpl].
  rewrite lookup_union_first, lookup_fmap, merge_associate_lookup.
  destruct (associate (trees !! n) (ts_text t !! n)); simpl; [reflexivity|].
  destruct (decide (n = name)) as [->|Hne].
  - apply lookup_insert_eq.
  - apply lookup_insert_ne. congruence.
Qed.

Lemma associate_idem (new old : option Tree) :
  associate new (associate new old) = associate new old.
Proof.
  destruct new as [tree|], old as [o|]; simpl; try reflexivity;
    destruct (IsEmptyTree tree) eqn:He; rewrite ?He; reflexivity.
Qed.

(** Compiling the same text under the same name a second time changes
    nothing. *)
Lemma compiled_into_idem (name : string) (trees : gmap string Tree)
    (t : TemplateSet) :
  is_Some (trees !! name) ->
  compiled_into name trees (compiled_into name trees t) = compiled_into name trees t.
Proof.
  intros [own Hown].
  assert (Hcommon : merge associate trees (merge associate trees (ts_text t))
                    = merge associate trees (ts_text t)).
  { apply map_eq. intros i. rewrite !merge_associate_lookup. apply associate_idem. }
  unfold compiled_into. cbn [ts_name ts_self ts_delims ts_funcs ts_tmpl ts_text].
  rewrite Hcommon. f_equal.
  apply map_eq. intros i.
  rewrite !lookup_union_first, lookup_fmap, merge_associate_lookup.
  destruct (associate (trees !! i) (ts_text t !! i)) as [tree|] eqn:Ha;
    simpl; [reflexivity|].
  destruct (decide (i = name)) as [->|Hne].
  - rewrite Hown in Ha. destruct (ts_text t !! name); discriminate.
  - rewrite !lookup_insert_ne by congruence.
    rewrite lookup_union_first, lookup_fmap, merge_associate_lookup, Ha. simpl.
    rewrite lookup_insert_ne by congruence. reflexivity.
Qed.

Lemma compile_extensions_read_error (fsys : FS) (path rel ext : string)
    (extensions : list string) (err : option error) (t : TemplateSet) (re : error) :
  ext ∈ extensions ->
  fs_ReadFile fsys path = Err re ->
  compile_extensions fsys path rel ext extensions err t = (t, Some re).
Proof.
  intros Hin Hread. revert err.
  induction extensions as [|e rest IH]; intros err; [inversion Hin|]. simpl.
  destruct (String.eqb_spec ext e) as [<-|Hne].
  - rewrite Hread. reflexivity.
  - apply IH. apply elem_of_cons in Hin as [->|Hin]; [contradiction|exact Hin].
Qed.

(** A matching file that is read and does not parse: the loop stops at the
    first matching entry, after [New] has allocated the name. *)
Lemma compile_extensions_parse_error (fsys : FS) (path rel ext text : string)
    (extensions : list string) (err : option error) (t : TemplateSet) (pe : error) :
  let name := filepath_ToSlash goos
                (slice_to rel (String.length rel - String.length ext)) in
  ext ∈ extensions ->
  fs_ReadFile fsys path = Ok text ->
  parse_Parse (ts_delims t) (dom (ts_funcs t)) name text = Err pe ->
  compile_extensions fsys path rel ext extensions err t
  = (template_receiver name t (template_Assoc name t), Some pe).
Proof.
  intros name Hin Hread Hparse. revert err.
  induction extensions as [|e rest IH]; intros err; [inversion Hin|].
  cbn [compile_extensions].
  destruct (String.eqb_spec ext e) as [<-|Hne].
  - rewrite Hread. fold name. unfold template_Parse.
    cbn [template_Assoc ts_delims ts_funcs]. rewrite Hparse. reflexivity.
  - apply IH. apply elem_of_cons in Hin as [->|Hin]; [contradiction|exact Hin].
Qed.

(** A matching file that parses, when [New] does not reset the set: however
    often the allow-list names the extension, the loop leaves the set as
    one [New] and one [Parse] leave it. *)
Lemma compile_extensions_again (fsys : FS) (path rel ext text : string)
    (extensions : list string) (t : TemplateSet) (trees : gmap string Tree) :
  let name := filepath_ToSlash goos
                (slice_to rel (String.length rel - String.length ext)) in
  fs_ReadFile fsys path = Ok text ->
  resets name t = false ->
  parse_Parse (ts_delims t) (dom (ts_funcs t)) name text = Ok trees ->
  compile_extensions fsys path rel ext extensions None (compiled_into name trees t)
  = (compiled_into name trees t, None).
Proof.
  intros name Hread Hres Hparse.
  induction extensions as [|e rest IH]; [reflexivity|].
  cbn [compile_extensions].
  destruct (String.eqb ext e); [|exact IH].
  rewrite Hread. fold name.
  rewrite (template_Parse_Assoc name text (compiled_into name trees t) trees Hres Hparse).
  rewrite (template_receiver_kept name (compiled_into name trees t) _ Hres).
  rewrite (compiled_into_idem name trees t (parse_Parse_own _ _ _ _ _ Hparse)).
  exact IH.
Qed.

Lemma compile_extensions_file (fsys : FS) (path rel ext text : string)
    (extensions : list string) (err : option error) (t : TemplateSet)
    (trees : gmap string Tree) :
  let name := filepath_ToSlash goos
                (slice_to rel (String.length rel - String.length ext)) in
  ext ∈ extensions ->
  fs_ReadFile fsys path = Ok text ->
  resets name t = false ->
  parse_Parse (ts_delims t) (dom (ts_funcs t)) name text = Ok trees ->
  compile_extensions fsys path rel ext extensions err t
  = (compiled_into name trees t, None).
Proof.
  intros name Hin Hread Hres Hparse. revert err.
  induction extensions as [|e rest IH]; intros err; [inversion Hin|].
  cbn [compile_extensions].
  destruct (String.eqb_spec ext e) as [<-|Hne].
  - rewrite Hread. fold name.
    rewrite (template_Parse_Assoc name text t trees Hres Hparse).
    rewrite (template_receiver_kept name t _ Hres).
    apply (compile_extensions_again fsys path rel ext text rest t trees Hread Hres Hparse).
  - apply IH. apply elem_of_cons in Hin as [->|Hin]; [contradiction|exact Hin].
Qed.

(** The walk callback on a matching file, when [New] does not reset the
    set. *)
Lemma compile_walkFn_file (o : Options) (dir : string) (t : TemplateSet)
    (ev : WalkEvent) (rel : string) :
  is_file ev ->
  filepath_Rel dir (ev_path ev) = Ok rel ->
  compile_ext rel ∈ Extensions o ->
  resets (compile_name rel) t = false ->
  compile_walkFn o dir t ev
  = match fs_ReadFile (the_FileSystem o) (ev_path ev) with
    | Err re => (t, Some re)
    | Ok text =>
        match parse_Parse (ts_delims t) (dom (ts_funcs t)) (compile_name rel) text with
        | Err pe => (template_Assoc (compile_name rel) t, Some pe)
        | Ok trees => (compiled_into (compile_name rel) trees t, None)
        end
    end.
Proof.
  intros [Hi He] Hrel Hext Hres. unfold compile_walkFn. rewrite Hi, He. simpl.
  rewrite Hrel. unfold compile_name in *.
  destruct (fs_ReadFile (the_FileSystem o) (ev_path ev)) as [text|re] eqn:Hread.
  - destruct (parse_Parse _ _ _ text) as [trees|pe] eqn:Hparse.
    + apply (compile_extensions_file _ _ _ _ text _ _ _ trees Hext Hread Hres Hparse).
    + rewrite (compile_extensions_parse_error _ _ _ _ text _ _ _ pe Hext Hread Hparse).
      rewrite (template_receiver_kept _ _ _ Hres). reflexivity.
  - apply compile_extensions_read_error; assumption.
Qed.

(** The walk callback on an entry that is not compiled. *)
Lemma compile_walkFn_skip (o : Options) (dir : string) (t : TemplateSet)
    (ev : WalkEvent) :
  compiled_name o dir ev = None ->
  compile_walkFn o dir t ev = (t, None)
  \/ exists e, compile_walkFn o dir t ev = (t, Some e).
Proof.
  unfold compiled_name, compile_walkFn.
  destruct (ev_info ev) as [[isdir]|]; [|auto].
  destruct isdir; [auto|]. destruct (ev_err ev); [auto|]. simpl.
  destruct (filepath_Rel dir (ev_path ev)) as [rel|re]; [|eauto].
  destruct (existsb _ _) eqn:Hex; [discriminate|]. intros _. left.
  apply compile_extensions_skip, existsb_eqb_false. exact Hex.
Qed.

(** Every step of a walk in which no file takes the name of the root
    template: the set is left alone, or a name is allocated and the parse
    fails, or the trees of the file are added. *)
Lemma compile_walkFn_cases (o : Options) (dir : string) (t t' : TemplateSet)
    (ev : WalkEvent) (err : option error) :
  ts_name t = dir -> ~ compiles_as o dir ev dir ->
  compile_walkFn o dir t ev = (t', err) ->
  (t' = t /\ (err = None -> compiled_name o dir ev = None))
  \/ exists name, compiles_as o dir ev name /\ resets name t = false
       /\ ((exists pe, err = Some pe /\ t' = template_Assoc name t)
           \/ (exists trees, brings o dir t ev trees /\ err = None
                 /\ t' = compiled_into name trees t)).
Proof.
  intros Hn Hroot Hstep. destruct (compiled_name o dir ev) as [name|] eqn:Hname.
  - pose proof (proj1 (compiled_name_Some o dir ev name) Hname)
      as (Hfile & rel & Hrel & Hext & Hcn).
    assert (Hres : resets name t = false).
    { apply resets_false. rewrite Hn. intros ->. apply Hroot. exact Hname. }
    rewrite <- Hcn in Hres.
    rewrite (compile_walkFn_file o dir t ev rel Hfile Hrel Hext Hres) in Hstep.
    rewrite Hcn in Hres, Hstep.
    destruct (fs_ReadFile (the_FileSystem o) (ev_path ev)) as [text|re] eqn:Hread.
    + destruct (parse_Parse _ _ name text) as [trees|pe] eqn:Hparse;
        injection Hstep as <- <-; right; exists name;
        (split; [exact Hname|]); (split; [exact Hres|]).
      * right. exists trees. split; [|auto].
        unfold brings, brought. rewrite Hname, Hread, Hparse. reflexivity.
      * left. eauto.
    + injection Hstep as <- <-. left. split; [reflexivity|discriminate].
  - destruct (compile_walkFn_skip o dir t ev Hname) as [Hs|[e Hs]];
      rewrite Hs in Hstep; injection Hstep as <- <-; left;
      (split; [reflexivity|]); [auto|discriminate].
Qed.


Lemma brings_context (o : Options) (dir : string) (t t' : TemplateSet)
    (ev : WalkEvent) (trees : gmap string Tree) :
  same_context t t' -> brings o dir t' ev trees -> brings o dir t ev trees.
Proof. unfold brings, brought. intros [-> ->]. auto. Qed.

(** *** The walk *)

Lemma compile_walkFn_context (o : Options) (dir : string) (t t' : TemplateSet)
    (ev : WalkEvent) (err : option error) :
  ts_name t = dir -> ~ compiles_as o dir ev dir ->
  compile_walkFn o dir t ev = (t', err) ->
  same_context t t' /\ ts_name t' = ts_name t /\ ts_self t' = ts_self t.
Proof.
  intros Hn Hroot Hstep.
  destruct (compile_walkFn_cases o dir t t' ev err Hn Hroot Hstep)
    as [[-> _]|(name & _ & Hres & [(pe & _ & ->)|(trees & _ & _ & ->)])].
  - repeat split.
  - repeat split. apply (template_Assoc_self name t Hres).
  - repeat split.
Qed.

Lemma no_root_name_cons (o : Options) (dir : string) (ev : WalkEvent)
    (events : list WalkEvent) :
  no_root_name o dir (ev :: events) ->
  ~ compiles_as o dir ev dir /\ no_root_name o dir events.
Proof.
  intros Hno. split; [apply Hno; left|]. intros ev' Hin. apply Hno. right. exact Hin.
Qed.

Lemma no_root_name_app (o : Options) (dir : string) (l1 l2 : list WalkEvent) :
  no_root_name o dir (l1 ++ l2) ->
  no_root_name o dir l1 /\ no_root_name o dir l2.
Proof.
  intros Hno. split; intros ev Hin; apply Hno; apply elem_of_app; auto.
Qed.

Lemma no_root_name_check (o : Options) (dir : string) (events : list WalkEvent) :
  forallb (fun ev => match compiled_name o dir ev with
                     | Some n => negb (String.eqb n dir)
                     | None => true
                     end) events = true ->
  no_root_name o dir events.
Proof.
  induction events as [|ev0 rest IH]; simpl; intros Hall ev Hin Hc;
    [inversion Hin|].
  apply andb_true_iff in Hall as [H1 H2].
  apply elem_of_cons in Hin as [->|Hin]; [|exact (IH H2 ev Hin Hc)].
  unfold compiles_as in Hc. rewrite Hc, String.eqb_refl in H1. discriminate.
Qed.

Lemma brings_none_check (o : Options) (dir : string) (t : TemplateSet)
    (n : string) (events : list WalkEvent) :
  forallb (fun ev => match brought o dir t ev with
                     | Some trees => isNil (trees !! n)
                     | None => true
                     end) events = true ->
  forall ev trees, ev ∈ events -> brings o dir t ev trees -> trees !! n = None.
Proof.
  induction events as [|ev0 rest IH]; simpl; intros Hall ev trees Hin Hb;
    [inversion Hin|].
  apply andb_true_iff in Hall as [H1 H2].
  apply elem_of_cons in Hin as [->|Hin]; [|exact (IH H2 ev trees Hin Hb)].
  unfold brings in Hb. rewrite Hb in H1. destruct (trees !! n); [discriminate|].
  reflexivity.
Qed.

(** In a walk in which no file takes the name of the root template, the
    parsing context of the set never changes. *)
Lemma WalkDir_context (o : Options) (dir : string) (events : list WalkEvent)
    (t t' : TemplateSet) (err : option error) :
  ts_name t = dir -> no_root_name o dir events ->
  WalkDir (compile_walkFn o dir) events t = (t', err) ->
  same_context t t' /\ ts_name t' = dir /\ ts_self t' = ts_self t.
Proof.
  revert t. induction events as [|ev rest IH]; intros t Hn Hno; simpl.
  - intros [= <- _]. repeat split. exact Hn.
  - apply no_root_name_cons in Hno as [Hev Hrest].
    destruct (compile_walkFn o dir t ev) as [t1 e1] eqn:Hstep.
    destruct (compile_walkFn_context _ _ _ _ _ _ Hn Hev Hstep) as ([Hd Hf] & Hn1 & Hs1).
    rewrite Hn in Hn1.
    destruct e1 as [e|].
    + intros [= <- _]. repeat split; assumption.
    + intros Hwalk. destruct (IH t1 Hn1 Hrest Hwalk) as ([Hd' Hf'] & Hn' & Hs').
      repeat split; congruence.
Qed.




(** An entry that both tables hold stays as it is while no file brings a
    tree of its name. *)
Lemma WalkDir_entry (o : Options) (dir : string) (t0 : TemplateSet)
    (n : string) (tree : Tree) (events : list WalkEvent) (t t' : TemplateSet) :
  same_context t0 t -> ts_name t = dir -> no_root_name o dir events ->
  (forall ev trees, ev ∈ events -> brings o dir t0 ev trees -> trees !! n = None) ->
  ts_text t !! n = Some tree -> template_Lookup n t = Some (Some tree) ->
  WalkDir (compile_walkFn o dir) events t = (t', None) ->
  ts_text t' !! n = Some tree /\ template_Lookup n t' = Some (Some tree).
Proof.
  revert t. induction events as [|ev0 rest IH]; intros t Hctx Hn Hno Hnone Htext Hl;
    simpl.
  - intros [= <-]. auto.
  - apply no_root_name_cons in Hno as [Hev Hrest].
    destruct (compile_walkFn o dir t ev0) as [t1 [e|]] eqn:Hstep; [discriminate|].
    intros Hwalk.
    destruct (compile_walkFn_context _ _ _ _ _ _ Hn Hev Hstep) as ([Hd Hf] & Hn1 & _).
    rewrite Hn in Hn1.
    assert (Hctx1 : same_context t0 t1).
    { destruct Hctx as [Hd0 Hf0]. split; congruence. }
    assert (Hnone' : forall ev trees, ev ∈ rest -> brings o dir t0 ev trees ->
                                      trees !! n = None).
    { intros ev trees Hin. apply Hnone. right. exact Hin. }
    apply (IH t1 Hctx1 Hn1 Hrest Hnone'); [| |exact Hwalk];
      destruct (compile_walkFn_cases o dir t t1 ev0 None Hn Hev Hstep)
        as [[-> _]|(name0 & Hname0 & _ & [(pe & [=] & _)|(trees & Hb & _ & ->)])];
      try assumption.
    + unfold compiled_into. cbn [ts_text]. rewrite merge_associate_lookup.
      rewrite (Hnone ev0 trees (list_elem_of_here _ _)
                 (brings_context o dir t0 t ev0 trees Hctx Hb)), Htext.
      reflexivity.
    + rewrite compiled_into_lookup.
      rewrite (Hnone ev0 trees (list_elem_of_here _ _)
                 (brings_context o dir t0 t ev0 trees Hctx Hb)), Htext.
      reflexivity.
Qed.

Lemma CompileTemplates_unfold (r : Render) :
  Render_CompileTemplates r
  = (set_templates
       (Some (fst (WalkDir (compile_walkFn (opt r) (Directory (opt r)))
                     (fs_walk (the_FileSystem (opt r)) (Directory (opt r)))
                     (compile_base r)))) r,
     snd (WalkDir (compile_walkFn (opt r) (Directory (opt r)))
            (fs_walk (the_FileSystem (opt r)) (Directory (opt r)))
            (compile_base r))).
Proof.
  unfold Render_CompileTemplates, Render_compileTemplatesFromDir, compile_base.
  destruct (WalkDir _ _ _) as [t e]. reflexivity.
Qed.

Lemma Funcs_fold_name (l : list (gmap string Func)) (t : TemplateSet) :
  ts_name (foldl (fun t funcs => template_Funcs funcs t) t l) = ts_name t
  /\ ts_tmpl (foldl (fun t funcs => template_Funcs funcs t) t l) = ts_tmpl t
  /\ ts_text (foldl (fun t funcs => template_Funcs funcs t) t l) = ts_text t.
Proof.
  revert t. induction l as [|m l IH]; intros t; simpl; [auto|].
  destruct (IH (template_Funcs m t)) as (-> & -> & ->). auto.
Qed.

(** The set a compile pass starts from holds the root template only. *)
Lemma compile_base_root (r : Render) :
  ts_name (compile_base r) = Directory (opt r)
  /\ ts_tmpl (compile_base r) = {[ Directory (opt r) := None ]}
  /\ ts_text (compile_base r) = ∅.
Proof.
  unfold compile_base. cbn [template_Funcs ts_name ts_tmpl ts_text].
  destruct (Funcs_fold_name (Funcs (opt r))
              (template_Delims (Left (Delims_ (opt r))) (Right (Delims_ (opt r)))
                 (template_New (Directory (opt r))))) as (-> & -> & ->).
  auto.
Qed.



(** ** The HTML call: configuration frame and error propagation *)

Lemma set_Funcs_same (o : Options) : set_Funcs (Funcs o) o = o.
Proof. destruct o; reflexivity. Qed.

Lemma HTML_compile_opt (r : Render) (o : HTMLOptions) :
  opt (fst (HTML_compile r o))
  = if HTML_compiles r && Nat.ltb 0 (size (HTMLOptions_Funcs o))
    then set_Funcs (Funcs (opt r) ++ [HTMLOptions_Funcs o]) (opt r)
    else opt r.
Proof.
  unfold HTML_compile, HTML_compiles.
  destruct (IsDevelopment (opt r)) eqn:Hdev; simpl.
  - match goal with |- context [Render_CompileTemplates ?x] =>
      destruct (compile_frame x) as (_ & -> & _) end.
    destruct (Nat.ltb 0 (size (HTMLOptions_Funcs o))); reflexivity.
  - destruct (templates r) as [t|]; simpl; [reflexivity|].
    match goal with |- context [Render_CompileTemplates ?x] =>
      destruct (compile_frame x) as (_ & -> & _) end.
    destruct (Nat.ltb 0 (size (HTMLOptions_Funcs o))); reflexivity.
Qed.

Lemma Render_HTML_opt (fuel : nat) (r : Render) (w : Writer) (status : Z)
    (name : string) (binding : Data) (htmlOpt : list HTMLOptions)
    (r' : Render) (w' : Writer) (err : option error) :
  Render_HTML fuel r w status name binding htmlOpt = Some (r', w', err) ->
  opt r' = opt (fst (HTML_compile r (Render_prepareHTMLOptions r htmlOpt))).
Proof.
  intros Hcall. apply Render_HTML_inv in Hcall.
  destruct Hcall as [(cerr & _ & -> & _)|(_ & t & _ & -> & _)]; reflexivity.
Qed.

(** C2 (amended).  An [HTML] call leaves the configured [Layout], and every
    other option except [Funcs], as they were.  [Funcs] is unchanged when
    the call does not compile (a set is held and development mode is off)
    or when the merged call-scoped function map is empty; otherwise the
    merged map is appended to [Funcs]. *)
Theorem HTML_changes_only_Funcs (fuel : nat) (r : Render) (w : Writer)
    (status : Z) (name : string) (binding : Data) (htmlOpt : list HTMLOptions)
    (r' : Render) (w' : Writer) (err : option error) :
  Render_HTML fuel r w status name binding htmlOpt = Some (r', w', err) ->
  let merged := HTMLOptions_Funcs (Render_prepareHTMLOptions r htmlOpt) in
  Layout (opt r') = Layout (opt r)
  /\ opt r' = set_Funcs (Funcs (opt r')) (opt r)
  /\ Funcs (opt r')
     = if HTML_compiles r && Nat.ltb 0 (size merged)
       then Funcs (opt r) ++ [merged] else Funcs (opt r).
Proof.
  intros Hcall merged. rewrite (Render_HTML_opt _ _ _ _ _ _ _ _ _ _ Hcall).
  rewrite HTML_compile_opt. fold merged.
  destruct (HTML_compiles r && Nat.ltb 0 (size merged)); simpl.
  - auto.
  - rewrite set_Funcs_same. auto.
Qed.

Lemma HTML_Render_error (fuel : nat) (h : HTML) (w w' : Writer) (binding : Data)
    (e : error) :
  HTML_Render fuel h w binding = Some (w', Some e) ->
  w' = w
  /\ exists buf, ExecuteTemplate fuel (HTML_Templates h) "" (HTML_Name h) binding
                 = Some (buf, Some e).
Proof.
  unfold HTML_Render. destruct (HTML_bp h) as [bp|]; [|discriminate].
  unfold bp_Get.
  destruct (ExecuteTemplate fuel _ "" _ binding) as [[buf [xe|]]|]; try discriminate.
  - intros [= <- <-]. eauto.
  - destruct (Buffer_WriteTo buf _) as [w1 we]. discriminate.
Qed.


(** The generic [Render]: an engine error on a header-capable writer is
    written as a 500 unless the option disables it. *)
Lemma Render_Render_error {E : Type} `{Engine E} (fuel : nat) (r : Render)
    (w w1 : Writer) (e : E) (data : Data) (er : error) :
  Engine_Render fuel e w data = Some (w1, Some er) ->
  Render_Render fuel r w e data
  = Some (match w1 with
          | HTTPWriter hw fault =>
              if DisableHTTPErrorRendering (opt r) then w1
              else http_Error hw fault (Error er) StatusInternalServerError
          | PlainWriter _ _ => w1
          end, Some er).
Proof.
  intros Heng. unfold Render_Render. rewrite Heng.
  destruct w1 as [out fault|hw fault]; [reflexivity|].
  destruct (DisableHTTPErrorRendering (opt r)); reflexivity.
Qed.

Lemma Render_Render_inv {E : Type} `{Engine E} (fuel : nat) (r : Render)
    (w w' : Writer) (e : E) (data : Data) (err : option error) :
  Render_Render fuel r w e data = Some (w', err) ->
  exists w1, Engine_Render fuel e w data = Some (w1, err).
Proof.
  unfold Render_Render.
  destruct (Engine_Render fuel e w data) as [[w1 [er|]]|]; [| |discriminate].
  - destruct w1 as [out fault|hw fault].
    + intros [= <- <-]. eauto.
    + destruct (negb _); intros [= <- <-]; eauto.
  - destruct w1; intros [= <- <-]; eauto.
Qed.




(** ** Execution: fuel and the yield callback *)

Lemma run_nodes_mono
    (e1 e2 : string -> string -> Data -> option (string * option error))
    (c1 c2 : string -> list string -> option (Value * option error))
    (d : Data) (nodes : Tree) :
  exec_le e1 e2 -> call_le c1 c2 ->
  forall buf r, run_nodes e1 c1 d buf nodes = Some r ->
                run_nodes e2 c2 d buf nodes = Some r.
Proof.
  intros He Hc. induction nodes as [|node rest IH]; intros buf r; simpl; [auto|].
  destruct node as [s| |f args|name].
  - apply IH.
  - apply IH.
  - destruct (c1 f args) as [[v oe]|] eqn:Hcall; [|discriminate].
    rewrite (Hc _ _ _ Hcall). destruct oe; [auto|apply IH].
  - destruct (e1 buf name d) as [[buf' oe]|] eqn:Hexec; [|discriminate].
    rewrite (He _ _ _ _ Hexec). destruct oe; [auto|apply IH].
Qed.

Lemma call_func_mono
    (e1 e2 : string -> string -> Data -> option (string * option error))
    (lk : string -> option Template) (fn : Func) (f : string) :
  exec_le e1 e2 ->
  forall args r, call_func e1 lk fn f args = Some r ->
                 call_func e2 lk fn f args = Some r.
Proof.
  intros He args r. destruct fn as [g|name binding|name|rp wp name binding]; simpl.
  - auto.
  - destruct args; [|auto]. unfold yield_func, Render_execute.
    destruct (e1 "" name binding) as [[buf oe]|] eqn:Hexec; [|discriminate].
    rewrite (He _ _ _ _ Hexec). auto.
  - auto.
  - destruct args as [|x [|y rest]]; auto.
    unfold partial_func, Render_execute.
    destruct (rp || negb (isNil (lk _))); [|auto].
    match goal with |- context [e1 "" ?n binding] =>
      destruct (e1 "" n binding) as [[buf oe]|] eqn:Hexec; [|discriminate];
      rewrite (He _ _ _ _ Hexec) end.
    auto.
Qed.

Lemma call_in_mono
    (e1 e2 : string -> string -> Data -> option (string * option error))
    (t : TemplateSet) :
  exec_le e1 e2 -> call_le (call_in e1 t) (call_in e2 t).
Proof.
  intros He f args r. unfold call_in.
  destruct (ts_funcs t !! f) as [fn|]; [|auto].
  apply call_func_mono. exact He.
Qed.

Lemma execute_eq (k : nat) (t : TemplateSet) (included : bool) (buf name : string)
    (d : Data) :
  execute (S k) t included buf name d
  = if included then
      match ts_text t !! name with
      | Some tree =>
          run_nodes (execute k t true) (call_in (execute k t false) t) d buf tree
      | None =>
          Some (buf, Some (if isNil (ts_tmpl t !! name)
                           then ErrNoSuchTemplate name
                           else ErrEmptyTemplate name))
      end
    else
      match ts_tmpl t !! name with
      | None => Some (buf, Some (ErrUndefined name))
      | Some None => Some (buf, Some (ErrIncomplete name))
      | Some (Some tree) =>
          run_nodes (execute k t true) (call_in (execute k t false) t) d buf tree
      end.
Proof. reflexivity. Qed.

Lemma execute_S (k : nat) (t : TemplateSet) (included : bool) :
  exec_le (execute k t included) (execute (S k) t included).
Proof.
  revert included. induction k as [|k IH]; intros included buf name d r;
    [discriminate|].
  rewrite (execute_eq (S k)), (execute_eq k).
  destruct included.
  - destruct (ts_text t !! name) as [tree|]; [|auto].
    apply run_nodes_mono; [apply IH|apply call_in_mono; apply IH].
  - destruct (ts_tmpl t !! name) as [[tree|]|]; [|auto|auto].
    apply run_nodes_mono; [apply IH|apply call_in_mono; apply IH].
Qed.


Lemma ExecuteTemplate_S (k : nat) (t : TemplateSet) :
  exec_le (ExecuteTemplate k t) (ExecuteTemplate (S k) t).
Proof. apply execute_S. Qed.



Section YieldIdentity.
Variables (t1 : TemplateSet) (P : string) (d : Data).
Variables (fuelP : nat) (yp : string * option error).
Hypothesis yield_is_page : ts_funcs t1 !! "yield" = Some (FYield P d).
Hypothesis page_result : Render_execute (ExecuteTemplate fuelP t1) P d = Some yp.









End YieldIdentity.

(** ** The layout yield identity *)



(** An [HTML] call on a held set outside development mode. *)
Lemma Render_HTML_held (fuel : nat) (r : Render) (t : TemplateSet) (w : Writer)
    (status : Z) (name : string) (binding : Data) (htmlOpt : list HTMLOptions) :
  templates r = Some t -> IsDevelopment (opt r) = false ->
  let sel := HTML_select r (Render_prepareHTMLOptions r htmlOpt) t name binding in
  Render_HTML fuel r w status name binding htmlOpt
  = match Render_Render fuel (set_templates (Some (fst sel)) r) w
            {| HTML_Head :=
                 {| Head_ContentType := HTMLContentType (opt r) +:+ compiledCharset r;
                    Head_Status := status |};
               HTML_Name := snd sel;
               HTML_Templates := fst sel;
               HTML_bp := BufferPool (opt r) |} binding with
    | None => None
    | Some (w', err) => Some (set_templates (Some (fst sel)) r, w', err)
    end.
Proof.
  intros Ht Hdev sel. unfold Render_HTML, HTML_compile.
  rewrite Hdev, Ht. simpl. rewrite Ht. fold sel.
  destruct sel as [t' name']. reflexivity.
Qed.

Lemma HTML_select_layout (r : Render) (o : HTMLOptions) (t : TemplateSet)
    (name : string) (binding : Data) :
  HTMLOptions_Layout o <> "" -> is_Some (template_Lookup name t) ->
  snd (HTML_select r o t name binding) = HTMLOptions_Layout o
  /\ ts_funcs (fst (HTML_select r o t name binding)) !! "yield"
     = Some (FYield name binding)
  /\ ts_tmpl (fst (HTML_select r o t name binding)) = ts_tmpl t.
Proof.
  intros HL [tpl Hfound]. unfold HTML_select.
  set (tf := if Nat.ltb 0 (size (HTMLOptions_Funcs o)) then _ else t).
  assert (Htf : ts_tmpl tf = ts_tmpl t).
  { unfold tf. destruct (Nat.ltb 0 (size (HTMLOptions_Funcs o))); reflexivity. }
  unfold template_Lookup in *. rewrite Htf, Hfound.
  destruct (Nat.ltb 0 (String.length (HTMLOptions_Layout o))) eqn:Hlen.
  - simpl. split; [reflexivity|]. split; [apply layoutFuncs_yield|exact Htf].
  - apply nonempty_ltb in Hlen. contradiction.
Qed.


End Properties.

(* ===================================================================== *)
(** * The properties on concrete trees                                    *)
(* ===================================================================== *)

Section Examples.
#[local] Existing Instance demo_binding.
#[local] Existing Instance demo_env.

(** The specification's first scenario. *)
Example scenario_hello :
  Render_HTML 5 render_basic fresh_response 200 "home" "World" []
  = Some (set_templates
            (Some (template_Funcs (Render_layoutFuncs render_basic "home" "World")
                     (set_of render_basic)))
            render_basic,
          hello_response, None).
Proof. vm_compute. reflexivity. Qed.



(** C2, counterexample.  The first [HTML] call with a per-call function map
    compiles, and the merged map is appended to the configured [Funcs]. *)
Lemma HTML_override_grows_Funcs :
  Funcs (opt render_basic) = []
  /\ exists r' w' err,
       Render_HTML 5 render_basic fresh_response 200 "home" "World"
         [override_funcs] = Some (r', w', err)
       /\ length (Funcs (opt r')) = 1
       /\ Funcs (opt r') <> Funcs (opt render_basic).
Proof.
  split; [reflexivity|]. eexists _, _, _.
  split; [vm_compute; reflexivity|].
  split; [vm_compute; reflexivity|].
  intros Heq. apply (f_equal length) in Heq. vm_compute in Heq. discriminate.
Qed.

Lemma HTML_changes_only_Funcs_witness :
  match Render_HTML 5 render_basic fresh_response 200 "home" "World"
          [override_funcs] with
  | Some (r', _, _) => Layout (opt r') = Layout (opt render_basic)
  | None => False
  end.
Proof.
  destruct (Render_HTML 5 render_basic fresh_response 200 "home" "World"
              [override_funcs]) as [[[r' w'] err]|] eqn:Hcall.
  - exact (proj1 (HTML_changes_only_Funcs _ _ _ _ _ _ _ _ _ _ Hcall)).
  - vm_compute in Hcall. discriminate.
Defined.

(** C3, counterexample.  Strict mode and the fallback are both on and the
    page has no ["footer-home"]: [partial "footer"] does not execute the
    first candidate (which would be a not-found error) but the bare
    ["footer"], and the page renders without error. *)
Lemma strict_partial_executes_fallback :
  let t' := template_Funcs (Render_layoutFuncs render_partial "home" "World")
              (set_of render_partial) in
  RequirePartials (opt render_partial) = true
  /\ template_Lookup "footer-home" t' = None
  /\ ExecuteTemplate 3 t' "" "footer-home" "World"
     = Some ("", Some (ErrUndefined "footer-home"))
  /\ call_in (ExecuteTemplate 3 t') t' "partial" ["footer"]
     = Some (VHTML "FALLBACK", None)
  /\ match Render_HTML 5 render_partial fresh_response 200 "home" "World" [] with
     | Some (_, HTTPWriter hw _, err) => rw_body hw = "[FALLBACK]" /\ err = None
     | _ => False
     end.
Proof. vm_compute. repeat split; reflexivity. Qed.

Lemma partial_executes_resolved_name_witness :
  let t' := template_Funcs (Render_layoutFuncs render_partial "home" "World")
              (set_of render_partial) in
  call_in (ExecuteTemplate 3 t') t' "partial" ["footer"]
  = match ExecuteTemplate 3 t' "" "footer" "World" with
    | None => None
    | Some (buf, err) => Some (VHTML buf, err)
    end.
Proof.
  intros t'.
  refine (proj1 (proj2 (partial_executes_resolved_name 3 render_partial
                          (set_of render_partial) "home" "footer" "World")) _ _ _).
  - vm_compute. reflexivity.
  - vm_compute. reflexivity.
  - eexists. vm_compute. reflexivity.
Defined.








(** A file of the same tree whose extension is not in the allow-list (and
    whose content would not parse) changes nothing. *)
Example unmatched_file_is_skipped :
  compile_walkFn (opt render_basic) "templates" (set_of render_basic)
    (file_event "templates/notes.txt")
  = (set_of render_basic, None).
Proof. vm_compute. reflexivity. Qed.

Lemma lock_selected_once_witness : lock (New [dev_options]) = RWMutex.
Proof. apply (proj1 (lock_selected_once [dev_options])). reflexivity. Defined.


(** C10, counterexample.  For a dotless file in a directory with a dot in
    its name, the suffix from the last dot of the relative path is not the
    extension the compile pass computes: the pass computes the empty
    extension and, with the empty string in the allow-list, compiles the
    file under its whole relative path. *)
Lemma extension_ignores_directory_dots :
  suffix_from_last_dot "v1.2/README" = ".2/README"
  /\ compile_ext "v1.2/README" = ""
  /\ compile_ext "v1.2/README" <> suffix_from_last_dot "v1.2/README"
  /\ snd (Render_CompileTemplates render_dotted_dir) = None
  /\ Render_TemplateLookup "v1.2/README" (compiled render_dotted_dir)
     = Some (Some (Some [NText "page"])).
Proof.
  split; [reflexivity|]. split; [reflexivity|]. split; [discriminate|].
  split; vm_compute; reflexivity.
Qed.

Lemma extension_is_suffix_of_final_element_witness :
  compile_extensions (memFS site_basic) "templates/notes.txt" "notes.txt"
    (compile_ext "notes.txt") [".tmpl"] None (set_of render_basic)
  = (set_of render_basic, None).
Proof.
  apply (proj2 (proj2 (extension_is_suffix_of_final_element "notes.txt"
                         "templates/notes.txt" (memFS site_basic) [".tmpl"]
                         (set_of render_basic)))).
  vm_compute. intros Hin. inversion Hin as [|? ? ? Hnil]; inversion Hnil.
Defined.

(** The examples of the claim itself. *)
Example final_extension_examples :
  compile_ext "a.html.tmpl" = ".tmpl"
  /\ compile_name "a.html.tmpl" = "a.html"
  /\ compile_ext "Makefile" = "".
Proof. repeat split; reflexivity. Qed.

End Examples.

(* ===================================================================== *)
(** * Further properties of the package                                   *)
(* ===================================================================== *)

Section Coverage.
Context `{Environment}.

(** ** Construction *)


(** X1.  [prepareOptions] applies its defaults once and for all: running it
    again on its own result changes nothing. *)
Theorem prepareOptions_idempotent (r : Render) :
  Render_prepareOptions (Render_prepareOptions r) = Render_prepareOptions r.
Proof.
  destruct r as [lk o ts cc]. destruct o. unfold Render_prepareOptions. simpl.
  destruct (Nat.eqb (String.length Charset0) 0) eqn:E1;
    destruct (Nat.eqb (String.length Directory0) 0) eqn:E2;
    destruct (Nat.eqb (length Extensions0) 0) eqn:E3;
    destruct (Nat.eqb (String.length HTMLContentType0) 0) eqn:E4;
    destruct FileSystem0, BufferPool0, DisableCharset0; simpl;
    rewrite ?E1, ?E2, ?E3, ?E4; reflexivity.
Qed.




(** ** What a successful call writes *)

Lemma Buffer_WriteTo_response (buf : string) (hw : ResponseWriter) :
  Buffer_WriteTo buf (HTTPWriter hw None)
  = (HTTPWriter {| rw_header := rw_header hw;
                   rw_status := match buf, rw_status hw with
                                | EmptyString, st => st
                                | _, Some c => Some c
                                | _, None => Some 200%Z
                                end;
                   rw_body := rw_body hw +:+ buf |} None, None).
Proof.
  destruct buf as [|a buf]; simpl.
  - rewrite string_app_empty_r. destruct hw; reflexivity.
  - reflexivity.
Qed.

(** X3.  A call that returns nil on an HTTP response without write fault
    has set the [Content-Type] header to the configured HTML content type
    followed by the compiled character-set suffix, has set the status to
    the caller's code unless the response was already started, and has
    appended exactly the output of the executed template to the body.  For
    a coordinator built by [New] the suffix is empty when the character set
    is disabled and ["; charset=" + Charset] otherwise, with [UTF-8] for an
    empty [Charset]. *)
Theorem success_writes_header_status_body (fuel : nat) (r : Render)
    (hw : ResponseWriter) (status : Z) (name : string) (binding : Data)
    (htmlOpt : list HTMLOptions) (r' : Render) (w' : Writer) :
  Render_HTML fuel r (HTTPWriter hw None) status name binding htmlOpt
  = Some (r', w', None) ->
  (exists t' name' buf,
      templates r' = Some t'
      /\ ExecuteTemplate fuel t' "" name' binding = Some (buf, None)
      /\ w' = HTTPWriter
                {| rw_header := <[ ContentType :=
                                     HTMLContentType (opt r) +:+ compiledCharset r ]>
                                  (rw_header hw);
                   rw_status := match rw_status hw with
                                | Some c => Some c
                                | None => Some status
                                end;
                   rw_body := rw_body hw +:+ buf |} None)
  /\ (forall o rest, r = New (o :: rest) ->
      HTMLContentType (opt r) +:+ compiledCharset r
      = (if decide (HTMLContentType o = "") then ContentHTML else HTMLContentType o)
        +:+ (if DisableCharset o then ""
             else "; charset=" +:+
                  (if decide (Charset o = "") then defaultCharset else Charset o))).
Proof.
  intros Hcall. split.
  - pose proof (Render_HTML_opt _ _ _ _ _ _ _ _ _ _ Hcall) as Hopt.
    pose proof (HTML_compile_opt r (Render_prepareHTMLOptions r htmlOpt)) as Hco.
    pose proof (HTML_compile_frame r (Render_prepareHTMLOptions r htmlOpt))
      as (_ & Hcc & _).
    apply Render_HTML_inv in Hcall. simpl in Hcall.
    destruct Hcall as [(cerr & _ & _ & _ & [=])|(_ & t & _ & Hr' & Hrr)].
    assert (Hct : HTMLContentType (opt r') = HTMLContentType (opt r)).
    { rewrite Hopt, Hco. destruct (_ && _); reflexivity. }
    assert (Hcs : compiledCharset r' = compiledCharset r).
    { rewrite Hr'. exact Hcc. }
    rewrite Hct, Hcs in Hrr.
    unfold Render_Render, Engine_Render, HTML_Engine, HTML_Render in Hrr.
    simpl in Hrr.
    destruct (BufferPool (opt r')) as [bp|]; [|discriminate].
    unfold bp_Get in Hrr.
    destruct (ExecuteTemplate fuel _ "" _ binding) as [[buf [e|]]|] eqn:Hexec.
    + destruct (negb _); discriminate.
    + rewrite Buffer_WriteTo_response in Hrr. injection Hrr as <-.
      eexists _, _, buf. split; [rewrite Hr'; reflexivity|].
      split; [exact Hexec|].
      unfold Head_Write, WriteHeader, Header_Set. simpl.
      destruct buf, (rw_status hw); reflexivity.
    + discriminate.
  - intros o rest ->. unfold New, Render_prepareOptions. simpl.
    destruct (HTMLContentType o), (Charset o), (DisableCharset o); reflexivity.
Qed.

(** X4.  In development mode the set held from an earlier call has no
    influence: the call behaves as if the coordinator held no set. *)
Theorem development_mode_discards_held_set (fuel : nat) (r : Render)
    (held : option TemplateSet) (w : Writer) (status : Z) (name : string)
    (binding : Data) (htmlOpt : list HTMLOptions) :
  IsDevelopment (opt r) = true ->
  Render_HTML fuel (set_templates held r) w status name binding htmlOpt
  = Render_HTML fuel (set_templates None r) w status name binding htmlOpt.
Proof.
  intros Hdev. unfold Render_HTML, HTML_compile, Render_prepareHTMLOptions.
  simpl. rewrite Hdev. reflexivity.
Qed.

(** ** Names that are not in the set *)

Lemma HTML_select_miss (r : Render) (o : HTMLOptions) (t : TemplateSet)
    (name : string) (binding : Data) :
  template_Lookup name t = None ->
  snd (HTML_select r o t name binding) = name
  /\ ts_tmpl (fst (HTML_select r o t name binding)) = ts_tmpl t.
Proof.
  intros Hmiss. unfold HTML_select.
  set (tf := if Nat.ltb 0 (size (HTMLOptions_Funcs o)) then _ else t).
  assert (Htf : ts_tmpl tf = ts_tmpl t).
  { unfold tf. destruct (Nat.ltb 0 (size (HTMLOptions_Funcs o))); reflexivity. }
  unfold template_Lookup in *. rewrite Htf, Hmiss. auto.
Qed.

(** X5.  Rendering a page that is not in the held set returns the engine's
    not-found error for the page's own name, whatever layout is configured
    or passed: the layout is substituted only for a page that is found. *)
Theorem missing_page_is_undefined (fuel : nat) (r : Render) (t : TemplateSet)
    (w : Writer) (status : Z) (name : string) (binding : Data)
    (htmlOpt : list HTMLOptions) :
  templates r = Some t -> IsDevelopment (opt r) = false ->
  is_Some (BufferPool (opt r)) ->
  template_Lookup name t = None ->
  exists r' w',
    Render_HTML (S fuel) r w status name binding htmlOpt
    = Some (r', w', Some (ErrUndefined name)).
Proof.
  intros Ht Hdev [bp Hbp] Hmiss.
  rewrite (Render_HTML_held (S fuel) r t w status name binding htmlOpt Ht Hdev).
  destruct (HTML_select_miss r (Render_prepareHTMLOptions r htmlOpt) t name
              binding Hmiss) as [Hname Htmpl].
  rewrite Hname.
  erewrite Render_Render_error; [eauto|].
  unfold Engine_Render, HTML_Engine, HTML_Render.
  cbn [HTML_bp HTML_Templates HTML_Name]. rewrite Hbp.
  unfold bp_Get. rewrite ExecuteTemplate_undefined; [reflexivity|].
  unfold template_Lookup. rewrite Htmpl. exact Hmiss.
Qed.

(** X6.  When the page is found and the effective layout is a name that is
    not in the set, the call returns the not-found error for the layout's
    name. *)
Theorem missing_layout_is_undefined (fuel : nat) (r : Render) (t : TemplateSet)
    (w : Writer) (status : Z) (name : string) (binding : Data)
    (htmlOpt : list HTMLOptions) :
  let L := HTMLOptions_Layout (Render_prepareHTMLOptions r htmlOpt) in
  templates r = Some t -> IsDevelopment (opt r) = false ->
  is_Some (BufferPool (opt r)) ->
  is_Some (template_Lookup name t) ->
  L <> "" -> template_Lookup L t = None ->
  exists r' w',
    Render_HTML (S fuel) r w status name binding htmlOpt
    = Some (r', w', Some (ErrUndefined L)).
Proof.
  intros L Ht Hdev [bp Hbp] Hfound HL Hmiss.
  rewrite (Render_HTML_held (S fuel) r t w status name binding htmlOpt Ht Hdev).
  destruct (HTML_select_layout r (Render_prepareHTMLOptions r htmlOpt) t name
              binding HL Hfound) as (Hname & _ & Htmpl).
  rewrite Hname. fold L.
  erewrite Render_Render_error; [eauto|].
  unfold Engine_Render, HTML_Engine, HTML_Render.
  cbn [HTML_bp HTML_Templates HTML_Name]. rewrite Hbp.
  unfold bp_Get. rewrite ExecuteTemplate_undefined; [reflexivity|].
  unfold template_Lookup. rewrite Htmpl. exact Hmiss.
Qed.

(** ** Function maps *)

Lemma union_lookup_first (m1 m2 : gmap string Func) (k : string) :
  (m1 ∪ m2) !! k = match m1 !! k with Some f => Some f | None => m2 !! k end.
Proof.
  destruct (m1 !! k) as [f|] eqn:Hk.
  - apply lookup_union_Some_l. exact Hk.
  - apply lookup_union_r. exact Hk.
Qed.

Lemma merged_from_snoc (acc : gmap string Func) (l : list (gmap string Func))
    (m : gmap string Func) :
  foldl (fun funcs tmp => tmp ∪ funcs) acc (l ++ [m])
  = m ∪ foldl (fun funcs tmp => tmp ∪ funcs) acc l.
Proof. rewrite foldl_app. reflexivity. Qed.

(** X7.  The last map that defines a name wins: the call-scoped function
    map looks a name up in the per-call [Funcs] first, and then in the
    configured maps from the last to the first. *)
Theorem function_maps_last_wins (r : Render) (o : HTMLOptions)
    (rest : list HTMLOptions) (l : list (gmap string Func)) (m : gmap string Func)
    (k : string) :
  HTMLOptions_Funcs (Render_prepareHTMLOptions r (o :: rest)) !! k
  = match HTMLOptions_Funcs o !! k with
    | Some f => Some f
    | None => merged_Funcs (Funcs (opt r)) !! k
    end
  /\ HTMLOptions_Funcs (Render_prepareHTMLOptions r []) = merged_Funcs (Funcs (opt r))
  /\ merged_Funcs (l ++ [m]) !! k
     = match m !! k with Some f => Some f | None => merged_Funcs l !! k end
  /\ merged_Funcs [] !! k = None.
Proof.
  split; [|split; [reflexivity|split]].
  - rewrite prepareHTMLOptions_funcs. apply union_lookup_first.
  - unfold merged_Funcs. rewrite merged_from_snoc. apply union_lookup_first.
  - apply lookup_empty.
Qed.

Lemma Funcs_fold (l : list (gmap string Func)) (t : TemplateSet) :
  ts_funcs (foldl (fun t funcs => template_Funcs funcs t) t l)
  = foldl (fun funcs tmp => tmp ∪ funcs) (ts_funcs t) l.
Proof.
  revert t. induction l as [|m l IH]; intros t; simpl; [reflexivity|].
  rewrite IH. reflexivity.
Qed.

Lemma compile_base_funcs (r : Render) :
  ts_funcs (compile_base r) = helperFuncs ∪ merged_Funcs (Funcs (opt r)).
Proof. unfold compile_base. simpl. rewrite Funcs_fold. reflexivity. Qed.

Lemma HTML_select_funcs_other (r : Render) (o : HTMLOptions) (t : TemplateSet)
    (name : string) (binding : Data) (k : string) :
  k <> "yield" -> k <> "current" -> k <> "partial" ->
  ts_funcs (fst (HTML_select r o t name binding)) !! k
  = match HTMLOptions_Funcs o !! k with
    | Some f => Some f
    | None => ts_funcs t !! k
    end.
Proof.
  intros Hy Hc Hp. unfold HTML_select.
  set (tf := if Nat.ltb 0 (size (HTMLOptions_Funcs o)) then _ else t).
  assert (Htf : ts_funcs tf !! k
                = match HTMLOptions_Funcs o !! k with
                  | Some f => Some f
                  | None => ts_funcs t !! k
                  end).
  { unfold tf. destruct (Nat.ltb 0 (size (HTMLOptions_Funcs o))) eqn:Hsz.
    - simpl. apply union_lookup_first.
    - apply Nat.ltb_ge in Hsz.
      assert (Hempty : HTMLOptions_Funcs o = ∅) by (apply map_size_empty_iff; lia).
      rewrite Hempty, lookup_empty. reflexivity. }
  assert (Hlay : forall t0,
            ts_funcs (template_Funcs (Render_layoutFuncs r name binding) t0) !! k
            = ts_funcs t0 !! k).
  { intros t0. simpl. apply lookup_union_r. unfold Render_layoutFuncs.
    rewrite !lookup_insert_ne by congruence.
    apply lookup_singleton_ne. congruence. }
  destruct (template_Lookup name tf); [|exact Htf].
  destruct (Nat.ltb 0 (String.length (HTMLOptions_Layout o))); [|exact Htf].
  simpl fst. rewrite Hlay. exact Htf.
Qed.

(** X8.  While a compile pass parses, a built-in helper shadows a configured
    function of the same name: the pass registers the helper map last, and
    the function table stays that way to the end of a pass in which no file
    is compiled under the name of the root directory (such a file makes
    [New] reset the set, function table included).  When [HTML] executes, it
    is the other way round for every name other than the three layout
    callbacks: the call registers the call-scoped functions again on the
    held set, after the helpers. *)
Theorem helpers_shadow_at_parse_only (r : Render) (k : string) :
  (no_root_name (opt r) (Directory (opt r))
     (fs_walk (the_FileSystem (opt r)) (Directory (opt r))) ->
   exists t, templates (fst (Render_CompileTemplates r)) = Some t
     /\ ts_funcs t !! k
        = match helperFuncs !! k with
          | Some f => Some f
          | None => merged_Funcs (Funcs (opt r)) !! k
          end)
  /\ (forall fuel w status name binding htmlOpt r' w' err f,
        Render_HTML fuel r w status name binding htmlOpt = Some (r', w', err) ->
        snd (HTML_compile r (Render_prepareHTMLOptions r htmlOpt)) = None ->
        k <> "yield" -> k <> "current" -> k <> "partial" ->
        HTMLOptions_Funcs (Render_prepareHTMLOptions r htmlOpt) !! k = Some f ->
        exists t', templates r' = Some t' /\ ts_funcs t' !! k = Some f).
Proof.
  split.
  - intros Hno. rewrite CompileTemplates_unfold. simpl.
    destruct (WalkDir _ _ (compile_base r)) as [t e] eqn:Hwalk.
    exists t. split; [reflexivity|].
    destruct (WalkDir_context _ _ _ _ _ _ (proj1 (compile_base_root r)) Hno Hwalk)
      as ([_ ->] & _).
    rewrite compile_base_funcs. apply union_lookup_first.
  - intros fuel w status name binding htmlOpt r' w' err f Hcall Hc Hy Hcu Hp Hk.
    apply Render_HTML_inv in Hcall. simpl in Hcall.
    destruct Hcall as [(cerr & Hc' & _)|(_ & t & _ & -> & _)]; [congruence|].
    eexists. split; [reflexivity|].
    rewrite HTML_select_funcs_other by assumption. rewrite Hk. reflexivity.
Qed.

(** X9.  The layout callbacks outlive the call that registered them.  After
    a call that rendered page [P] with data [d] under a layout, the held
    set maps [yield], [current] and [partial] to the closures of that call;
    and a later call on a held set that applies no layout and passes no
    function named [yield] leaves [yield] as it was, so a template calling
    it renders the earlier page with the earlier data. *)
Theorem layout_callbacks_outlive_the_call (fuel : nat) (r : Render)
    (t : TemplateSet) (w : Writer) (status : Z) (name : string) (binding : Data)
    (htmlOpt : list HTMLOptions) (r' : Render) (w' : Writer) (err : option error) :
  let opt_ := Render_prepareHTMLOptions r htmlOpt in
  templates r = Some t -> IsDevelopment (opt r) = false ->
  Render_HTML fuel r w status name binding htmlOpt = Some (r', w', err) ->
  (HTMLOptions_Layout opt_ <> "" -> is_Some (template_Lookup name t) ->
   exists t', templates r' = Some t'
     /\ ts_funcs t' !! "yield" = Some (FYield name binding)
     /\ ts_funcs t' !! "current" = Some (FCurrent name)
     /\ ts_funcs t' !! "partial"
        = Some (FPartial (RequirePartials (opt r))
                  (RenderPartialsWithoutPrefix (opt r)) name binding))
  /\ (HTMLOptions_Layout opt_ = "" -> HTMLOptions_Funcs opt_ !! "yield" = None ->
      exists t', templates r' = Some t'
        /\ ts_funcs t' !! "yield" = ts_funcs t !! "yield").
Proof.
  intros opt_ Ht Hdev Hcall.
  rewrite (Render_HTML_held fuel r t w status name binding htmlOpt Ht Hdev) in Hcall.
  fold opt_ in Hcall.
  destruct (Render_Render fuel _ w _ binding) as [[w1 e1]|]; [|discriminate].
  injection Hcall as <- _ _. simpl templates. split.
  - intros HL [tpl Hfound]. eexists. split; [reflexivity|].
    unfold HTML_select.
    set (tf := if Nat.ltb 0 (size (HTMLOptions_Funcs opt_)) then _ else t).
    assert (Htf : ts_tmpl tf = ts_tmpl t).
    { unfold tf. destruct (Nat.ltb 0 (size (HTMLOptions_Funcs opt_))); reflexivity. }
    unfold template_Lookup in *. rewrite Htf, Hfound.
    destruct (Nat.ltb 0 (String.length (HTMLOptions_Layout opt_))) eqn:Hlen;
      [|apply nonempty_ltb in Hlen; contradiction].
    simpl. repeat split; apply lookup_union_Some_l; reflexivity.
  - intros HL Hno. eexists. split; [reflexivity|].
    unfold HTML_select. rewrite HL. simpl.
    set (tf := if Nat.ltb 0 (size (HTMLOptions_Funcs opt_)) then _ else t).
    assert (Htf : ts_funcs tf !! "yield" = ts_funcs t !! "yield").
    { unfold tf. destruct (Nat.ltb 0 (size (HTMLOptions_Funcs opt_))); [|reflexivity].
      simpl. rewrite union_lookup_first, Hno. reflexivity. }
    destruct (template_Lookup name tf); exact Htf.
Qed.

(** ** The compile pass: what is skipped, what fails, what is stored *)

Lemma compile_ignores_step (o : Options) (dir : string) (ev : WalkEvent)
    (t : TemplateSet) :
  compile_ignores o dir ev = true -> compile_walkFn o dir t ev = (t, None).
Proof.
  unfold compile_ignores, compile_walkFn.
  destruct (ev_info ev) as [info|]; [|reflexivity].
  destruct (IsDir info || negb (isNil (ev_err ev))); [reflexivity|]. simpl.
  destruct (filepath_Rel dir (ev_path ev)) as [rel|e]; [|discriminate].
  intros Hex. apply negb_true_iff in Hex.
  apply compile_extensions_skip, existsb_eqb_false. exact Hex.
Qed.

(** X10.  Directories, entries without a [DirEntry], entries reported with
    an error and files whose extension is not in the allow-list have no
    influence on a compile pass: the pass is the pass over the remaining
    entries.  In particular a root that cannot be walked (its only entry is
    reported without a [DirEntry]) gives no error and a set without
    templates from files. *)
Theorem ignored_entries_have_no_influence (r : Render) (events : list WalkEvent)
    (t : TemplateSet) :
  let dir := Directory (opt r) in
  WalkDir (compile_walkFn (opt r) dir) events t
  = WalkDir (compile_walkFn (opt r) dir)
      (List.filter (fun ev => negb (compile_ignores (opt r) dir ev)) events) t
  /\ (forallb (compile_ignores (opt r) dir)
        (fs_walk (the_FileSystem (opt r)) dir) = true ->
      Render_CompileTemplates r
      = (set_templates (Some (compile_base r)) r, None)).
Proof.
  intros dir. split.
  - revert t. induction events as [|ev rest IH]; intros t; simpl; [reflexivity|].
    destruct (compile_ignores (opt r) dir ev) eqn:Hig; simpl.
    + rewrite (compile_ignores_step _ _ _ _ Hig). apply IH.
    + destruct (compile_walkFn (opt r) dir t ev) as [t1 [e|]]; [reflexivity|].
      apply IH.
  - intros Hall. rewrite CompileTemplates_unfold. fold dir.
    assert (Hwalk : forall l t0,
              forallb (compile_ignores (opt r) dir) l = true ->
              WalkDir (compile_walkFn (opt r) dir) l t0 = (t0, None)).
    { induction l as [|ev rest IH]; intros t0; simpl; [reflexivity|].
      intros Hl. apply andb_true_iff in Hl as [Hig Hrest].
      rewrite (compile_ignores_step _ _ _ _ Hig). apply IH. exact Hrest. }
    rewrite (Hwalk _ _ Hall). reflexivity.
Qed.

(** X11.  A matching file that cannot be read ends the pass with the read
    error, and the file leaves no trace in the set: when the entries before
    it compiled without error into a set, that set is what the coordinator
    holds. *)
Theorem read_error_is_fatal (r : Render) (pre post : list WalkEvent)
    (ev : WalkEvent) (rel : string) (re : error) (t1 : TemplateSet) :
  let dir := Directory (opt r) in
  let fsys := the_FileSystem (opt r) in
  fs_walk fsys dir = pre ++ ev :: post ->
  is_file ev ->
  filepath_Rel dir (ev_path ev) = Ok rel ->
  compile_ext rel ∈ Extensions (opt r) ->
  fs_ReadFile fsys (ev_path ev) = Err re ->
  WalkDir (compile_walkFn (opt r) dir) pre (compile_base r) = (t1, None) ->
  Render_CompileTemplates r = (set_templates (Some t1) r, Some re).
Proof.
  intros dir fsys Hwalk Hfile Hrel Hext Hread Hpre.
  rewrite CompileTemplates_unfold. fold dir fsys.
  rewrite Hwalk, WalkDir_app, Hpre. simpl.
  assert (Hstep : compile_walkFn (opt r) dir t1 ev = (t1, Some re)).
  { unfold compile_walkFn. destruct Hfile as [-> ->]. simpl. rewrite Hrel.
    apply compile_extensions_read_error; assumption. }
  rewrite Hstep. reflexivity.
Qed.

(** X12.  In a successful pass in which no file is compiled under the name
    of the root directory, the entry of a name is the tree that the last
    file to define the name has given it, be it as the file's own name or
    in a [{{define}}] clause, when that tree is not empty: later files that
    do not define the name leave the entry alone, and an earlier definition
    is replaced. *)
Theorem entry_is_last_tree_brought (r r' : Render) (pre post : list WalkEvent)
    (ev : WalkEvent) (name : string) (trees : gmap string Tree) (tree : Tree) :
  let dir := Directory (opt r) in
  let walk := fs_walk (the_FileSystem (opt r)) dir in
  Render_CompileTemplates r = (r', None) ->
  walk = pre ++ ev :: post ->
  no_root_name (opt r) dir walk ->
  brings (opt r) dir (compile_base r) ev trees ->
  trees !! name = Some tree ->
  IsEmptyTree tree = false ->
  (forall ev' trees', ev' ∈ post ->
     brings (opt r) dir (compile_base r) ev' trees' -> trees' !! name = None) ->
  Render_TemplateLookup name r' = Some (Some (Some tree)).
Proof.
  intros dir walk Hpass Hwalk Hno Hb Htree Hfull Hlast.
  rewrite CompileTemplates_unfold in Hpass. fold dir walk in Hpass.
  rewrite Hwalk in Hpass, Hno. rewrite WalkDir_app in Hpass.
  apply no_root_name_app in Hno as [Hnopre Hno].
  apply no_root_name_cons in Hno as [Hnoev Hnopost].
  destruct (compile_base_root r) as (Hname & _). fold dir in Hname.
  destruct (WalkDir (compile_walkFn (opt r) dir) pre (compile_base r))
    as [t1 e1] eqn:Hpre.
  destruct e1 as [e|]; [discriminate|]. simpl in Hpass.
  destruct (WalkDir_context _ _ _ _ _ _ Hname Hnopre Hpre) as (Hctx1 & Hn1 & _).
  destruct (compile_walkFn (opt r) dir t1 ev) as [t2 e2] eqn:Hstep.
  destruct e2 as [e|]; [discriminate|].
  destruct (WalkDir (compile_walkFn (opt r) dir) post t2) as [t3 e3] eqn:Hpost.
  simpl in Hpass. injection Hpass as <- ->.
  unfold Render_TemplateLookup. simpl. f_equal.
  destruct (compile_walkFn_context _ _ _ _ _ _ Hn1 Hnoev Hstep) as ([Hd2 Hf2] & Hn2 & _).
  rewrite Hn1 in Hn2.
  assert (Hctx2 : same_context (compile_base r) t2).
  { destruct Hctx1 as [Hd1 Hf1]. split; congruence. }
  assert (Ht2 : ts_text t2 !! name = Some tree
                /\ template_Lookup name t2 = Some (Some tree)).
  { destruct (compile_walkFn_cases _ _ _ _ _ _ Hn1 Hnoev Hstep)
      as [[_ Hnone]|(name0 & _ & _ & [(pe & [=] & _)|(trees2 & Hb2 & _ & ->)])].
    - unfold brings, brought in Hb. rewrite (Hnone eq_refl) in Hb. discriminate.
    - apply (brings_context _ _ _ _ _ _ Hctx1) in Hb2.
      unfold brings in Hb, Hb2. rewrite Hb in Hb2. injection Hb2 as <-.
      split.
      + unfold compiled_into. cbn [ts_text].
        rewrite merge_associate_lookup, Htree.
        destruct (ts_text t1 !! name); simpl; rewrite ?Hfull; reflexivity.
      + rewrite compiled_into_lookup, Htree.
        destruct (ts_text t1 !! name); simpl; rewrite ?Hfull; reflexivity. }
  destruct Ht2 as [Htext2 Hl2].
  exact (proj2 (WalkDir_entry _ _ _ name tree post t2 t3 Hctx2 Hn2 Hnopost Hlast
                  Htext2 Hl2 Hpost)).
Qed.

(** ** Shapes of extensions and names *)

Lemma ext_scan_shape (os : GOOS) (s r : string) :
  ext_scan os s = Some r ->
  r = ""
  \/ exists s', r = String "." s'
       /\ ContainsByte s' "." = false /\ has_separator os s' = false.
Proof.
  revert r. induction s as [|a s IH]; simpl; intros r; [discriminate|].
  destruct (ext_scan os s) as [r'|] eqn:Hscan.
  - intros [= <-]. apply IH. reflexivity.
  - destruct (IsPathSeparator os a); [intros [= <-]; auto|].
    destruct (Ascii.eqb_spec a ".") as [->|]; [|discriminate].
    intros [= <-]. right. exists s.
    destruct (ext_scan_None os s Hscan) as [Hs Hd]. auto.
Qed.

(** X13.  The extension the compile pass computes is empty, or a dot
    followed by text without a further dot and without a path separator.
    So an allow-list entry of any other shape (no leading dot, two dots, a
    separator) matches no file: a file whose extension loop sees only such
    entries is left alone. *)
Theorem extension_shape (rel path : string) (fsys : FS)
    (extensions : list string) (t : TemplateSet) :
  (compile_ext rel = ""
   \/ exists s, compile_ext rel = String "." s
        /\ ContainsByte s "." = false /\ has_separator goos s = false)
  /\ ((forall e, e ∈ extensions ->
         e <> ""
         /\ forall s, e = String "." s ->
              ContainsByte s "." = true \/ has_separator goos s = true) ->
      compile_extensions fsys path rel (compile_ext rel) extensions None t
      = (t, None)).
Proof.
  assert (Hshape : compile_ext rel = ""
                   \/ exists s, compile_ext rel = String "." s
                        /\ ContainsByte s "." = false
                        /\ has_separator goos s = false).
  { unfold compile_ext, filepath_Ext. destruct (ContainsByte rel "."); [|auto].
    destruct (ext_scan goos rel) as [r|] eqn:Hscan; [|auto].
    exact (ext_scan_shape goos rel r Hscan). }
  split; [exact Hshape|]. intros Hbad.
  apply compile_extensions_skip. intros Hin.
  destruct (Hbad _ Hin) as [Hne Hdot].
  destruct Hshape as [He|(s & He & Hnd & Hns)]; [contradiction|].
  destruct (Hdot s He) as [Hd|Hs]; congruence.
Qed.

Lemma replace_byte_gone (old new : ascii) (s : string) :
  old <> new -> ContainsByte (replace_byte old new s) old = false.
Proof.
  intros Hne. induction s as [|a s IH]; simpl; [reflexivity|].
  rewrite IH, orb_false_r.
  destruct (Ascii.eqb_spec a old) as [->|Ha].
  - apply Ascii.eqb_neq. congruence.
  - apply Ascii.eqb_neq. exact Ha.
Qed.

Lemma replace_byte_length (old new : ascii) (s : string) :
  String.length (replace_byte old new s) = String.length s.
Proof. induction s as [|a s IH]; simpl; congruence. Qed.

(** X14.  A template name is the relative path without its extension in
    length, and after normalisation it contains the platform separator only
    where that separator is the slash: on a platform with another separator
    no name contains it. *)
Theorem name_is_slash_normalised (rel : string) :
  String.length (compile_name rel)
  = String.length rel - String.length (compile_ext rel)
  /\ (Separator goos <> "/"%char ->
      ContainsByte (compile_name rel) (Separator goos) = false)
  /\ (goos = Unix ->
      compile_name rel +:+ compile_ext rel = rel).
Proof.
  destruct (compile_ext_suffix rel) as [p Hp]. unfold compile_name.
  generalize dependent (compile_ext rel). intros e ->.
  rewrite slice_to_app. split; [|split].
  - rewrite string_length_app. unfold filepath_ToSlash.
    destruct (Ascii.eqb (Separator goos) "/"); rewrite ?replace_byte_length; lia.
  - intros Hsep. unfold filepath_ToSlash.
    destruct (Ascii.eqb_spec (Separator goos) "/") as [Heq|_]; [contradiction|].
    apply replace_byte_gone. exact Hsep.
  - intros Hos. unfold filepath_ToSlash. rewrite Hos. reflexivity.
Qed.

(** ** fs.go: the two walkers *)

Lemma WalkDir_ext {S : Type} (f g : S -> WalkEvent -> S * option error)
    (events : list WalkEvent) (s : S) :
  (forall s ev, ev ∈ events -> f s ev = g s ev) ->
  WalkDir f events s = WalkDir g events s.
Proof.
  revert s. induction events as [|ev rest IH]; intros s Hfg; simpl; [reflexivity|].
  rewrite (Hfg s ev) by left.
  destruct (g s ev) as [s' [e|]]; [reflexivity|].
  apply IH. intros s0 ev0 Hin. apply Hfg. right. exact Hin.
Qed.

(** X15.  [EmbedFileSystem.Walk] never hands an entry without a [DirEntry]
    to the caller's function: it is the walk over the entries that have
    one.  For the callback of the compile pass, which skips such entries
    itself, walking through [EmbedFileSystem.Walk] is the same as walking
    with [fs.WalkDir]. *)
Theorem EmbedFileSystem_Walk_drops_nil_entries {S : Type} (e : FS) (root : string)
    (walkFn : S -> WalkEvent -> S * option error) (s : S)
    (o : Options) (dir : string) (t : TemplateSet) :
  EmbedFileSystem_Walk e root walkFn s
  = WalkDir walkFn
      (List.filter (fun ev => negb (isNil (ev_info ev))) (fs_walk e root)) s
  /\ EmbedFileSystem_Walk e root (compile_walkFn o dir) t
     = WalkDir (compile_walkFn o dir) (fs_walk e root) t.
Proof.
  unfold EmbedFileSystem_Walk. split.
  - generalize (fs_walk e root). intros events. revert s.
    induction events as [|ev rest IH]; intros s; simpl; [reflexivity|].
    destruct (ev_info ev) as [info|]; simpl; [|apply IH].
    destruct (walkFn s ev) as [s' [er|]]; [reflexivity|]. apply IH.
  - apply WalkDir_ext. intros t0 ev _. unfold compile_walkFn.
    destruct (ev_info ev); reflexivity.
Qed.

(** X16.  [tmplFS.Walk] makes every walk error fatal: the first entry
    reported with an error ends the walk with that error, unless the
    caller's function failed before, and the caller's function only ever
    sees entries without error; a walk without errored entries is the plain
    walk. *)
Theorem tmplFS_Walk_stops_at_walk_error {S : Type} (tfs : FS) (root : string)
    (walkFn : S -> WalkEvent -> S * option error) (s : S) :
  (forall pre ev post err,
      fs_walk tfs root = pre ++ ev :: post ->
      (forall ev', ev' ∈ pre -> ev_err ev' = None) ->
      ev_err ev = Some err ->
      tmplFS_Walk tfs root walkFn s
      = match WalkDir walkFn pre s with
        | (s', Some e) => (s', Some e)
        | (s', None) => (s', Some err)
        end)
  /\ ((forall ev, ev ∈ fs_walk tfs root -> ev_err ev = None) ->
      tmplFS_Walk tfs root walkFn s = WalkDir walkFn (fs_walk tfs root) s).
Proof.
  unfold tmplFS_Walk.
  assert (Hclean : forall events s0,
            (forall ev, ev ∈ events -> ev_err ev = None) ->
            WalkDir (fun s ev => match ev_err ev with
                                 | Some err => (s, Some err)
                                 | None => walkFn s ev
                                 end) events s0
            = WalkDir walkFn events s0).
  { intros events s0 Hnone. apply WalkDir_ext. intros s1 ev Hin.
    rewrite (Hnone ev Hin). reflexivity. }
  split.
  - intros pre ev post err Hwalk Hpre Herr.
    rewrite Hwalk, WalkDir_app, (Hclean pre s Hpre).
    destruct (WalkDir walkFn pre s) as [s' [e|]]; [reflexivity|].
    simpl. rewrite Herr. reflexivity.
  - intros Hnone. apply Hclean. exact Hnone.
Qed.

(** ** How calls compose *)

Lemma union_absorb (m f : gmap string Func) : m ∪ (m ∪ f) = m ∪ f.
Proof.
  apply map_eq. intros k. rewrite !union_lookup_first.
  destruct (m !! k); reflexivity.
Qed.

Lemma union_absorb_under (l m f : gmap string Func) :
  l ∪ (m ∪ (l ∪ (m ∪ f))) = l ∪ (m ∪ f).
Proof.
  apply map_eq. intros k. rewrite !union_lookup_first.
  destruct (l !! k), (m !! k); reflexivity.
Qed.

Lemma union_absorb_under_empty (l f : gmap string Func) :
  l ∪ (l ∪ f) = l ∪ f.
Proof. apply union_absorb. Qed.

Lemma template_Funcs_tmpl (m : gmap string Func) (t : TemplateSet) :
  ts_tmpl (template_Funcs m t) = ts_tmpl t.
Proof. reflexivity. Qed.

(** Selecting again on the selected set selects the same. *)
Lemma HTML_select_again (r : Render) (o : HTMLOptions) (t : TemplateSet)
    (name : string) (binding : Data) :
  HTML_select r o (fst (HTML_select r o t name binding)) name binding
  = HTML_select r o t name binding.
Proof.
  unfold HTML_select.
  destruct (Nat.ltb 0 (size (HTMLOptions_Funcs o))) eqn:Hsz.
  - change (template_Lookup name (template_Funcs (HTMLOptions_Funcs o) t))
      with (template_Lookup name t).
    destruct (template_Lookup name t) as [tpl|] eqn:Hl.
    + destruct (Nat.ltb 0 (String.length (HTMLOptions_Layout o))) eqn:Hlen.
      * cbn [fst].
        change (template_Lookup name
                  (template_Funcs (HTMLOptions_Funcs o)
                     (template_Funcs (Render_layoutFuncs r name binding)
                        (template_Funcs (HTMLOptions_Funcs o) t))))
          with (template_Lookup name t).
        rewrite Hl. f_equal. unfold template_Funcs. simpl. f_equal.
        apply union_absorb_under.
      * cbn [fst].
        change (template_Lookup name
                  (template_Funcs (HTMLOptions_Funcs o)
                     (template_Funcs (HTMLOptions_Funcs o) t)))
          with (template_Lookup name t).
        rewrite Hl. f_equal. unfold template_Funcs. simpl. f_equal.
        apply union_absorb.
    + cbn [fst].
      change (template_Lookup name
                (template_Funcs (HTMLOptions_Funcs o)
                   (template_Funcs (HTMLOptions_Funcs o) t)))
        with (template_Lookup name t).
      rewrite Hl. f_equal. unfold template_Funcs. simpl. f_equal.
      apply union_absorb.
  - destruct (template_Lookup name t) as [tpl|] eqn:Hl.
    + destruct (Nat.ltb 0 (String.length (HTMLOptions_Layout o))) eqn:Hlen.
      * cbn [fst].
        change (template_Lookup name
                  (template_Funcs (Render_layoutFuncs r name binding) t))
          with (template_Lookup name t).
        rewrite Hl. f_equal. unfold template_Funcs. simpl. f_equal.
        apply union_absorb.
      * cbn [fst]. rewrite Hl. reflexivity.
    + cbn [fst]. rewrite Hl. reflexivity.
Qed.

(** X17.  On a held set outside development mode a call can be repeated:
    the same call on the coordinator it left behind, with the same writer,
    gives the same writer, the same error and the same coordinator. *)
Theorem repeated_call_is_stable (fuel : nat) (r : Render) (t : TemplateSet)
    (w : Writer) (status : Z) (name : string) (binding : Data)
    (htmlOpt : list HTMLOptions) (r' : Render) (w' : Writer) (err : option error) :
  templates r = Some t -> IsDevelopment (opt r) = false ->
  Render_HTML fuel r w status name binding htmlOpt = Some (r', w', err) ->
  Render_HTML fuel r' w status name binding htmlOpt = Some (r', w', err).
Proof.
  intros Ht Hdev Hcall. pose proof Hcall as Hfirst.
  rewrite (Render_HTML_held fuel r t w status name binding htmlOpt Ht Hdev) in Hcall.
  destruct (Render_Render fuel _ w _ binding) as [[w1 e1]|] eqn:Hrr; [|discriminate].
  injection Hcall as <- <- <-.
  set (t1 := fst (HTML_select r (Render_prepareHTMLOptions r htmlOpt) t name binding))
    in *.
  rewrite (Render_HTML_held fuel (set_templates (Some t1) r) t1 w status name
             binding htmlOpt eq_refl Hdev).
  change (Render_prepareHTMLOptions (set_templates (Some t1) r) htmlOpt)
    with (Render_prepareHTMLOptions r htmlOpt).
  change (HTML_select (set_templates (Some t1) r))
    with (HTML_select r).
  assert (Hagain : HTML_select r (Render_prepareHTMLOptions r htmlOpt) t1 name binding
                    = HTML_select r (Render_prepareHTMLOptions r htmlOpt) t name
                        binding)
    by (unfold t1; apply HTML_select_again).
  rewrite Hagain. fold t1.
  change (set_templates (Some t1) (set_templates (Some t1) r))
    with (set_templates (Some t1) r).
  change (opt (set_templates (Some t1) r)) with (opt r).
  change (compiledCharset (set_templates (Some t1) r)) with (compiledCharset r).
  rewrite Hrr. reflexivity.
Qed.

Lemma prepareHTMLOptions_after_append (r r1 : Render) (htmlOpt : list HTMLOptions) :
  Layout (opt r1) = Layout (opt r) ->
  Funcs (opt r1) = Funcs (opt r)
  \/ Funcs (opt r1)
     = Funcs (opt r) ++ [HTMLOptions_Funcs (Render_prepareHTMLOptions r htmlOpt)] ->
  Render_prepareHTMLOptions r1 htmlOpt = Render_prepareHTMLOptions r htmlOpt.
Proof.
  intros HL [HF|HF]; unfold Render_prepareHTMLOptions in *; rewrite HL, HF;
    [reflexivity|].
  rewrite merged_from_snoc.
  destruct htmlOpt as [|o rest]; simpl; f_equal.
  - apply map_eq. intros k. rewrite !union_lookup_first.
    destruct (foldl _ ∅ (Funcs (opt r)) !! k); reflexivity.
  - apply map_eq. intros k. rewrite !union_lookup_first.
    destruct (HTMLOptions_Funcs o !! k),
      (foldl (fun funcs tmp => tmp ∪ funcs) ∅ (Funcs (opt r)) !! k); reflexivity.
Qed.

(** X18.  The lazy compile of a first call is a compile pass followed by
    the call: outside development mode, [HTML] on a coordinator without a
    set is [CompileTemplates] (with the call-scoped functions appended to
    [Funcs] when there are any) and, if that pass succeeds, the same [HTML]
    call on the coordinator the pass leaves; if the pass fails the call
    returns its error and writes nothing. *)
Theorem first_call_is_compile_then_call (fuel : nat) (r : Render) (w : Writer)
    (status : Z) (name : string) (binding : Data) (htmlOpt : list HTMLOptions) :
  let funcs := HTMLOptions_Funcs (Render_prepareHTMLOptions r htmlOpt) in
  let r0 := if Nat.ltb 0 (size funcs)
            then set_opt (set_Funcs (Funcs (opt r) ++ [funcs]) (opt r)) r
            else r in
  templates r = None -> IsDevelopment (opt r) = false ->
  Render_HTML fuel r w status name binding htmlOpt
  = match Render_CompileTemplates r0 with
    | (r1, Some e) => Some (r1, w, Some e)
    | (r1, None) => Render_HTML fuel r1 w status name binding htmlOpt
    end.
Proof.
  intros funcs r0 Ht Hdev.
  assert (Hcomp : HTML_compile r (Render_prepareHTMLOptions r htmlOpt)
                  = Render_CompileTemplates r0).
  { unfold HTML_compile. rewrite Hdev, Ht. reflexivity. }
  unfold Render_HTML at 1. rewrite Hcomp.
  destruct (compile_frame r0) as (_ & Hopt & Hcc & t & Hheld).
  destruct (Render_CompileTemplates r0) as [r1 [e|]]; [reflexivity|].
  simpl in Hopt, Hcc, Hheld.
  assert (Hr0 : Layout (opt r0) = Layout (opt r)
                /\ IsDevelopment (opt r0) = IsDevelopment (opt r)
                /\ (Funcs (opt r0) = Funcs (opt r)
                    \/ Funcs (opt r0) = Funcs (opt r) ++ [funcs])).
  { unfold r0. destruct (Nat.ltb 0 (size funcs)); simpl; auto. }
  destruct Hr0 as (HL & HD & HF).
  assert (Hprep : Render_prepareHTMLOptions r1 htmlOpt
                  = Render_prepareHTMLOptions r htmlOpt).
  { apply prepareHTMLOptions_after_append; rewrite Hopt; assumption. }
  rewrite (Render_HTML_held fuel r1 t w status name binding htmlOpt Hheld)
    by (rewrite Hopt, HD; exact Hdev).
  rewrite Hheld, Hprep.
  destruct (HTML_select r1 (Render_prepareHTMLOptions r htmlOpt) t name binding)
    as [t' name']. reflexivity.
Qed.

(** X19.  An execution error on a response that was already started cannot
    change its status: the status stays what it was, and with
    auto-error-rendering enabled the error text and a newline are appended
    to the body that is already there. *)
Theorem error_on_started_response_keeps_status (fuel : nat) (r : Render)
    (t : TemplateSet) (hw : ResponseWriter) (code status : Z) (name : string)
    (binding : Data) (htmlOpt : list HTMLOptions) (r' : Render) (w' : Writer)
    (e : error) :
  templates r = Some t -> IsDevelopment (opt r) = false ->
  DisableHTTPErrorRendering (opt r) = false ->
  rw_status hw = Some code ->
  Render_HTML fuel r (HTTPWriter hw None) status name binding htmlOpt
  = Some (r', w', Some e) ->
  exists hdr,
    w' = HTTPWriter {| rw_header := hdr; rw_status := Some code;
                       rw_body := rw_body hw +:+ Error e +:+ newline |} None.
Proof.
  intros Ht Hdev Hflag Hst Hcall.
  rewrite (Render_HTML_held fuel r t _ status name binding htmlOpt Ht Hdev) in Hcall.
  destruct (Render_Render fuel _ _ _ binding) as [[w1 e1]|] eqn:Hrr; [|discriminate].
  injection Hcall as _ <- ->.
  destruct (Render_Render_inv _ _ _ _ _ _ _ Hrr) as [w2 Heng].
  destruct (HTML_Render_error _ _ _ _ _ _ Heng) as [-> _].
  rewrite (Render_Render_error _ _ _ _ _ _ _ Heng) in Hrr.
  change (opt (set_templates _ r)) with (opt r) in Hrr. rewrite Hflag in Hrr.
  injection Hrr as <-. eexists.
  unfold http_Error, io_Write, WriteHeader, Header_Set. simpl.
  rewrite Hst. reflexivity.
Qed.

End Coverage.

(* ===================================================================== *)
(** * The further properties on concrete trees                            *)
(* ===================================================================== *)

Section CoverageExamples.
#[local] Existing Instance demo_binding.
#[local] Existing Instance demo_env.


Lemma success_writes_header_status_body_witness :
  match Render_HTML 5 render_basic fresh_response 200 "home" "World" [] with
  | Some (r', w', None) =>
      exists t' name' buf,
        templates r' = Some t'
        /\ ExecuteTemplate 5 t' "" name' "World" = Some (buf, None)
        /\ w' = HTTPWriter
                  {| rw_header := <[ ContentType :=
                                       HTMLContentType (opt render_basic)
                                       +:+ compiledCharset render_basic ]> ∅;
                     rw_status := Some 200%Z;
                     rw_body := "" +:+ buf |} None
  | _ => False
  end.
Proof.
  destruct (Render_HTML 5 render_basic fresh_response 200 "home" "World" [])
    as [[[r' w'] [e|]]|] eqn:Hcall;
    [vm_compute in Hcall; discriminate| |vm_compute in Hcall; discriminate].
  exact (proj1 (success_writes_header_status_body 5 render_basic
                  {| rw_header := ∅; rw_status := None; rw_body := "" |}
                  200 "home" "World" [] r' w' Hcall)).
Defined.

Lemma development_mode_discards_held_set_witness :
  Render_HTML 5 (set_templates (Some (template_New "stale")) render_dev)
    fresh_response 200 "home" "World" []
  = Render_HTML 5 (set_templates None render_dev)
      fresh_response 200 "home" "World" [].
Proof.
  apply development_mode_discards_held_set. reflexivity.
Defined.

Lemma missing_page_is_undefined_witness :
  exists r' w',
    Render_HTML 1 (compiled render_basic) fresh_response 200 "nope" "World" []
    = Some (r', w', Some (ErrUndefined "nope")).
Proof.
  refine (missing_page_is_undefined 0 (compiled render_basic) (set_of render_basic)
            fresh_response 200 "nope" "World" [] _ _ _ _).
  - vm_compute. reflexivity.
  - vm_compute. reflexivity.
  - eexists. vm_compute. reflexivity.
  - vm_compute. reflexivity.
Defined.

Lemma missing_layout_is_undefined_witness :
  exists r' w',
    Render_HTML 1 (compiled render_basic) fresh_response 200 "home" "World"
      [ {| HTMLOptions_Layout := "frame"; HTMLOptions_Funcs := ∅ |} ]
    = Some (r', w', Some (ErrUndefined "frame")).
Proof.
  refine (missing_layout_is_undefined 0 (compiled render_basic)
            (set_of render_basic) fresh_response 200 "home" "World"
            [ {| HTMLOptions_Layout := "frame"; HTMLOptions_Funcs := ∅ |} ]
            _ _ _ _ _ _).
  - vm_compute. reflexivity.
  - vm_compute. reflexivity.
  - eexists. vm_compute. reflexivity.
  - eexists. vm_compute. reflexivity.
  - vm_compute. discriminate.
  - vm_compute. reflexivity.
Defined.

Lemma helpers_shadow_at_parse_only_witness :
  match Render_HTML 5 render_basic fresh_response 200 "home" "World"
          [override_funcs] with
  | Some (r', _, _) =>
      exists t' f, templates r' = Some t' /\ ts_funcs t' !! "shout" = Some f
  | None => False
  end.
Proof.
  destruct (Render_HTML 5 render_basic fresh_response 200 "home" "World"
              [override_funcs]) as [[[r' w'] err]|] eqn:Hcall;
    [|vm_compute in Hcall; discriminate].
  destruct (proj2 (helpers_shadow_at_parse_only render_basic "shout")
              5 fresh_response 200%Z "home" "World" [override_funcs] r' w' err
              (FUser (fun _ => (VString "HEY", None))) Hcall
              ltac:(vm_compute; reflexivity)
              ltac:(discriminate) ltac:(discriminate) ltac:(discriminate)
              ltac:(vm_compute; reflexivity)) as (t' & Ht' & Hf).
  eauto.
Defined.

Lemma layout_callbacks_outlive_the_call_witness :
  match Render_HTML 4 (compiled render_basic) fresh_response 200 "home" "World" []
  with
  | Some (r', _, _) =>
      exists t', templates r' = Some t'
        /\ ts_funcs t' !! "yield" = Some (FYield "home" "World")
  | None => False
  end.
Proof.
  destruct (Render_HTML 4 (compiled render_basic) fresh_response 200 "home"
              "World" []) as [[[r' w'] err]|] eqn:Hcall;
    [|vm_compute in Hcall; discriminate].
  destruct (proj1 (layout_callbacks_outlive_the_call 4 (compiled render_basic)
                     (set_of render_basic) fresh_response 200 "home" "World" []
                     r' w' err ltac:(vm_compute; reflexivity)
                     ltac:(vm_compute; reflexivity) Hcall)
              ltac:(vm_compute; discriminate)
              ltac:(eexists; vm_compute; reflexivity))
    as (t' & Ht' & Hy & _).
  eauto.
Defined.

Lemma ignored_entries_have_no_influence_witness :
  Render_CompileTemplates render_missing
  = (set_templates (Some (compile_base render_missing)) render_missing, None).
Proof.
  apply (proj2 (ignored_entries_have_no_influence render_missing []
                  (compile_base render_missing))).
  vm_compute. reflexivity.
Defined.

Lemma read_error_is_fatal_witness :
  Render_CompileTemplates render_unreadable
  = (set_templates (Some (compile_base render_unreadable)) render_unreadable,
     Some (ErrIO "permission denied")).
Proof.
  refine (read_error_is_fatal render_unreadable
            [ {| ev_path := "templates";
                 ev_info := Some {| IsDir := true |}; ev_err := None |} ]
            [ file_event "templates/layout.tmpl"; file_event "templates/notes.txt" ]
            (file_event "templates/home.tmpl") "home.tmpl"
            (ErrIO "permission denied") (compile_base render_unreadable)
            _ _ _ _ _ _).
  - vm_compute. reflexivity.
  - split; reflexivity.
  - vm_compute. reflexivity.
  - vm_compute. left.
  - vm_compute. reflexivity.
  - vm_compute. reflexivity.
Defined.

Lemma entry_is_last_tree_brought_witness :
  Render_TemplateLookup "home" (compiled render_define)
  = Some (Some (Some [NText "SHADOW"])).
Proof.
  refine (entry_is_last_tree_brought render_define (compiled render_define)
            [ {| ev_path := "templates";
                 ev_info := Some {| IsDir := true |}; ev_err := None |};
              file_event "templates/home.tmpl" ]
            [] (file_event "templates/widgets.tmpl") "home"
            {[ "widgets" := []; "home" := [NText "SHADOW"] ]} [NText "SHADOW"]
            _ _ _ _ _ _ _).
  - vm_compute. reflexivity.
  - vm_compute. reflexivity.
  - apply no_root_name_check. vm_compute. reflexivity.
  - vm_compute. reflexivity.
  - vm_compute. reflexivity.
  - vm_compute. reflexivity.
  - apply brings_none_check. reflexivity.
Defined.

(** The rule behind the side condition: a tree that is empty or only white
    space does not replace the tree a name already has. *)
Example empty_tree_does_not_replace :
  associate (Some []) (Some [NText "page"]) = Some [NText "page"]
  /\ associate (Some [NText " "]) (Some [NText "page"]) = Some [NText "page"]
  /\ associate (Some [NText "x"]) (Some [NText "page"]) = Some [NText "x"].
Proof. repeat split; reflexivity. Qed.

Lemma extension_shape_witness :
  compile_extensions (memFS site_basic) "templates/home.tmpl" "home.tmpl"
    (compile_ext "home.tmpl") ["tmpl"; ".tar.gz"] None (set_of render_basic)
  = (set_of render_basic, None).
Proof.
  apply (proj2 (extension_shape "home.tmpl" "templates/home.tmpl"
                  (memFS site_basic) ["tmpl"; ".tar.gz"] (set_of render_basic))).
  intros e Hin. apply elem_of_cons in Hin as [->|Hin].
  - split; [discriminate|]. intros s [=].
  - apply elem_of_cons in Hin as [->|Hin]; [|inversion Hin].
    split; [discriminate|]. intros s [= <-]. left. reflexivity.
Defined.

Lemma name_is_slash_normalised_witness :
  ContainsByte (@compile_name demo_binding demo_env_windows "blog\post.tmpl") "\"
  = false.
Proof.
  apply (proj1 (proj2 (@name_is_slash_normalised demo_binding demo_env_windows
                         "blog\post.tmpl"))).
  discriminate.
Defined.

(** The name of the same file on the two platforms. *)
Example names_on_both_platforms :
  @compile_name demo_binding demo_env_windows "blog\post.tmpl" = "blog/post"
  /\ compile_name "blog/post.tmpl" = "blog/post".
Proof. split; reflexivity. Qed.

Lemma tmplFS_Walk_stops_at_walk_error_witness :
  tmplFS_Walk unlistableFS "templates" count_entries 0
  = (2, Some (ErrIO "permission denied")).
Proof.
  refine (proj1 (tmplFS_Walk_stops_at_walk_error unlistableFS "templates"
                   count_entries 0)
            [ {| ev_path := "templates";
                 ev_info := Some {| IsDir := true |}; ev_err := None |};
              file_event "templates/a.tmpl" ]
            {| ev_path := "templates/private";
               ev_info := Some {| IsDir := true |};
               ev_err := Some (ErrIO "permission denied") |}
            [ file_event "templates/z.tmpl" ]
            (ErrIO "permission denied") _ _ _).
  - vm_compute. reflexivity.
  - intros ev' Hin. apply elem_of_cons in Hin as [->|Hin]; [reflexivity|].
    apply elem_of_cons in Hin as [->|Hin]; [reflexivity|inversion Hin].
  - reflexivity.
Defined.

(** The compile pass itself walks on past the directory it cannot list. *)
Example compile_walks_past_unlistable_directory :
  WalkDir count_entries (fs_walk unlistableFS "templates") 0 = (4, None)
  /\ EmbedFileSystem_Walk unlistableFS "templates" count_entries 0 = (4, None)
  /\ EmbedFileSystem_Walk missingFS "templates" count_entries 0 = (0, None).
Proof. repeat split; reflexivity. Qed.

Lemma repeated_call_is_stable_witness :
  match Render_HTML 4 (compiled render_basic) fresh_response 200 "home" "World" []
  with
  | Some (r', w', err) =>
      Render_HTML 4 r' fresh_response 200 "home" "World" [] = Some (r', w', err)
  | None => False
  end.
Proof.
  destruct (Render_HTML 4 (compiled render_basic) fresh_response 200 "home"
              "World" []) as [[[r' w'] err]|] eqn:Hcall;
    [|vm_compute in Hcall; discriminate].
  refine (repeated_call_is_stable 4 (compiled render_basic) (set_of render_basic)
            fresh_response 200 "home" "World" [] r' w' err _ _ Hcall).
  - vm_compute. reflexivity.
  - vm_compute. reflexivity.
Defined.

Lemma first_call_is_compile_then_call_witness :
  Render_HTML 5 render_broken fresh_response 200 "a" "World" []
  = match
      Render_CompileTemplates
        (if Nat.ltb 0
              (size (HTMLOptions_Funcs (Render_prepareHTMLOptions render_broken [])))
         then set_opt
                (set_Funcs
                   (Funcs (opt render_broken)
                    ++ [HTMLOptions_Funcs (Render_prepareHTMLOptions render_broken [])])
                   (opt render_broken)) render_broken
         else render_broken)
    with
    | (r1, Some e) => Some (r1, fresh_response, Some e)
    | (r1, None) => Render_HTML 5 r1 fresh_response 200 "a" "World" []
    end.
Proof.
  apply (first_call_is_compile_then_call 5 render_broken fresh_response 200 "a"
           "World" []); reflexivity.
Defined.

Lemma error_on_started_response_keeps_status_witness :
  match Render_HTML 1 (compiled render_basic) (HTTPWriter started_response None)
          200 "nope" "World" [] with
  | Some (_, w', Some e) =>
      exists hdr,
        w' = HTTPWriter {| rw_header := hdr; rw_status := Some 204%Z;
                           rw_body := "early" +:+ Error e +:+ newline |} None
  | _ => False
  end.
Proof.
  destruct (Render_HTML 1 (compiled render_basic) (HTTPWriter started_response None)
              200 "nope" "World" []) as [[[r' w'] [e|]]|] eqn:Hcall;
    [|vm_compute in Hcall; discriminate|vm_compute in Hcall; discriminate].
  refine (error_on_started_response_keeps_status 1 (compiled render_basic)
            (set_of render_basic) started_response 204 200 "nope" "World" []
            r' w' e _ _ _ _ Hcall).
  - vm_compute. reflexivity.
  - vm_compute. reflexivity.
  - vm_compute. reflexivity.
  - reflexivity.
Defined.

End CoverageExamples.
